(** * Grid position risk calculator: the numeric engine of [App.tsx]

    The calculator turns nine strategy parameters into a ladder of price
    levels ([table]) and an aggregate position snapshot ([analysis]).  The
    repository holds two presentation files that each carry their own copy of
    that engine: [src/App.tsx] and a second, dark-mode variant.  Both are
    embedded below, each from its own source text.

    Number model.  The source computes with ECMAScript numbers.  Here a
    number is an exact rational ([Q]): binary rounding error, [NaN] and the
    infinities are outside the model.  A theorem whose conclusion depends on
    the value of a quotient therefore carries the non-zero denominator as a
    hypothesis, and the sample inputs that refute a statement are chosen so
    that binary rounding cannot change the outcome. *)

From Stdlib Require Import String Ascii ZArith QArith Qround Qabs Qminmax List Bool Lia Lqa.
Import ListNotations.

Open Scope Q_scope.

(** ** ECMAScript primitives used by the engine *)

(** [a < b] and [a > b] on numbers. *)
Definition Qlt_bool (a b : Q) : bool := negb (Qle_bool b a).
Definition Qgt_bool (a b : Q) : bool := Qlt_bool b a.

(** Round to the nearest integer, ties away from zero: the integer [n] that
    [Number.prototype.toFixed] picks for the scaled magnitude ("if there are
    two such n, pick the larger n"), with the sign put back. *)
Definition roundHalfAway (t : Q) : Z :=
  if Qlt_bool t 0 then (- Qfloor (- t + (1 # 2)))%Z else Qfloor (t + (1 # 2)).

Definition pow10 (d : nat) : positive := Nat.iter d (Pos.mul 10) 1%positive.

(** [+(x.toFixed(d))]: the decimal string with [d] fraction
    digits, read back as a number.  From 10^21 on, [toFixed] prints the number
    itself ([ToString]), so the value comes back unchanged. *)
Definition toFixed (x : Q) (d : nat) : Q :=
  if Qle_bool (inject_Z (10 ^ 21)) (Qabs x) then x
  else roundHalfAway (x * inject_Z (Zpos (pow10 d))) # pow10 d.

(** [a || b] on numbers: [a] unless it is falsy (zero). *)
Definition orElse (a b : Q) : Q := if Qeq_bool a 0 then b else a.

(** ** Data model *)

(** The component state the engine reads ([useState] values). *)
Record Params := {
  gridStartPrice : Q;
  currentPrice : Q;
  step : Q;
  lotSize : Q;
  levels : Z;
  tp : Q;
  balanceUSC : Q;
  leverage : Q;
  contractSize : Q
}.

(** One object pushed onto [arr] by the [table] loop. *)
Module Row.

Record t := {
  idx : Z;
  levelPrice : Q;
  lotsAtThisLevel : Q;
  cumulativeLots : Q;
  totalOunces : Q;
  notionalUSD : Q;
  notionalUSC : Q;
  margin : Q;
  potentialProfitIfAllClosed : Q;
  isTriggered : bool
}.

(** What indexing an array out of range would give; every use below sits
    behind a [length] test, so it is never read. *)
Definition undefined : t :=
  {| idx := 0; levelPrice := 0; lotsAtThisLevel := 0; cumulativeLots := 0;
     totalOunces := 0; notionalUSD := 0; notionalUSC := 0; margin := 0;
     potentialProfitIfAllClosed := 0; isTriggered := false |}.

End Row.

(** One element of [equityCurveData]. *)
Record Point := { price : Q; equity : Q }.

(** State of the bisection loops: [low], [high] and the last price that
    satisfied the test ([marginCallPrice], [resultPrice], [targetPrice]). *)
Record Search := { low : Q; high : Q; hit : Q }.

Definition precision : nat := 2.

(** [arr[arr.length - 1]] *)
Definition lastRow (arr : list Row.t) : Row.t := last arr Row.undefined.

(** [for (let i = 0; i < n; i++) s = body(s)] for a body that does not read
    [i]. *)
Fixpoint iterate {A : Type} (n : nat) (body : A -> A) (s : A) : A :=
  match n with
  | O => s
  | S k => iterate k body (body s)
  end.

(** ** [src/App.tsx] *)

Module App.

(** [table] (lines 18-48): one row per [i] in [0 .. levels - 1]. *)
Definition tableRow (P : Params) (i : nat) : Row.t :=
  let iq := inject_Z (Z.of_nat i) in
  let levelPrice := toFixed (gridStartPrice P - iq * step P) precision in
  let lotsAtThisLevel := toFixed (lotSize P) 4 in
  let cumulativeLots := toFixed (lotsAtThisLevel * (iq + 1)) 4 in
  let totalOunces := toFixed (cumulativeLots * contractSize P) 2 in
  let notionalUSD := toFixed (levelPrice * totalOunces) 2 in
  let notionalUSC := toFixed (notionalUSD * 100) 2 in
  let margin := toFixed ((notionalUSD / leverage P) * 100) 2 in
  let profitPerLotUSC := toFixed ((tp P * contractSize P) * 100) 2 in
  let potentialProfitIfAllClosed :=
    toFixed ((lotsAtThisLevel * (iq + 1)) * profitPerLotUSC) 2 in
  let isTriggered := Qle_bool (currentPrice P) levelPrice in
  {| Row.idx := Z.of_nat i + 1;
     Row.levelPrice := levelPrice;
     Row.lotsAtThisLevel := lotsAtThisLevel;
     Row.cumulativeLots := cumulativeLots;
     Row.totalOunces := totalOunces;
     Row.notionalUSD := notionalUSD;
     Row.notionalUSC := notionalUSC;
     Row.margin := margin;
     Row.potentialProfitIfAllClosed := potentialProfitIfAllClosed;
     Row.isTriggered := isTriggered |}.

Definition table (P : Params) : list Row.t :=
  map (tableRow P) (seq 0 (Z.to_nat (levels P))).

(** [table.filter(r => p <= r.levelPrice)] *)
Definition triggeredAt (tbl : list Row.t) (p : Q) : list Row.t :=
  filter (fun r => Qle_bool p (Row.levelPrice r)) tbl.

(** [rows.reduce((s, r) => s + r.levelPrice * r.lotsAtThisLevel, 0) / lots] *)
Definition entryOver (rows : list Row.t) (lots : Q) : Q :=
  fold_left (fun s r => s + Row.levelPrice r * Row.lotsAtThisLevel r) rows 0 / lots.

(** Locals of [analysis] (lines 54-84) that later definitions share. *)
Definition triggeredLevels (P : Params) : list Row.t :=
  filter Row.isTriggered (table P).

Definition lastTriggered (P : Params) : Row.t := lastRow (triggeredLevels P).

Definition avgEntry (P : Params) : Q :=
  entryOver (triggeredLevels P) (Row.cumulativeLots (lastTriggered P)).

(** [simulateDrop] (lines 93-109). *)
Definition simulateDrop (P : Params) (dropAmount : Q) : Q :=
  let newPrice := currentPrice P - dropAmount in
  let newTriggered := triggeredAt (table P) newPrice in
  if (length newTriggered =? 0)%nat then 0
  else
    let lastNew := lastRow newTriggered in
    let newTotalOunces := Row.totalOunces lastNew in
    let newTotalLots := Row.cumulativeLots lastNew in
    let newAvgEntry := entryOver newTriggered newTotalLots in
    toFixed ((newPrice - newAvgEntry) * newTotalOunces * 100) 2.

Definition stopOutLevel : Q := 1 # 2.

(** The state of the position at a probe price, as the search body computes
    it (lines 137-146): [equityAtMid] and [usedMarginAtMid]. *)
Definition equityAt (P : Params) (mid : Q) : Q :=
  let triggeredAtMid := triggeredAt (table P) mid in
  let lastAtMid := lastRow triggeredAtMid in
  let totalLotsAtMid := Row.cumulativeLots lastAtMid in
  let totalOuncesAtMid := Row.totalOunces lastAtMid in
  let avgEntryAtMid := entryOver triggeredAtMid totalLotsAtMid in
  let floatingPLAtMid := (mid - avgEntryAtMid) * totalOuncesAtMid * 100 in
  balanceUSC P + floatingPLAtMid.

Definition usedMarginAt (P : Params) (mid : Q) : Q :=
  let triggeredAtMid := triggeredAt (table P) mid in
  let lastAtMid := lastRow triggeredAtMid in
  let totalOuncesAtMid := Row.totalOunces lastAtMid in
  let notionalUSDAtMid := mid * totalOuncesAtMid in
  (notionalUSDAtMid / leverage P) * 100.

(** One pass of the loop in [findMarginCallPrice] (lines 126-155). *)
Definition marginCallStep (P : Params) (s : Search) : Search :=
  let mid := (low s + high s) / 2 in
  let triggeredAtMid := triggeredAt (table P) mid in
  if (length triggeredAtMid =? 0)%nat then
    {| low := low s; high := mid; hit := hit s |}
  else if Qle_bool (equityAt P mid) (usedMarginAt P mid * stopOutLevel) then
    {| low := mid; high := high s; hit := mid |}
  else
    {| low := low s; high := mid; hit := hit s |}.

(** The loop of [findMarginCallPrice] from its initial state. *)
Definition marginCallSearch (P : Params) : Search :=
  iterate 20 (marginCallStep P) {| low := 0; high := currentPrice P; hit := 0 |}.

Definition findMarginCallPrice (P : Params) : Q :=
  toFixed (hit (marginCallSearch P)) 2.

(** [equityCurveData] (lines 201-228); its body recomputes the equity at [p]
    with the statements of the search body (lines 217-222). *)
Definition equityCurvePoint (P : Params) (startP stepSize : Q) (i : nat) : Point :=
  let p := startP - inject_Z (Z.of_nat i) * stepSize in
  let triggeredAtP := triggeredAt (table P) p in
  let equityAtP :=
    if (0 <? length triggeredAtP)%nat then equityAt P p else balanceUSC P in
  {| price := p; equity := equityAtP |}.

Definition steps : nat := 50.

Definition equityCurve (P : Params) (marginCallPrice : Q) : list Point :=
  let startP := currentPrice P in
  let endP := Qmax 0 (marginCallPrice - 50) in
  let stepSize := (startP - endP) / inject_Z (Z.of_nat steps) in
  map (equityCurvePoint P startP stepSize) (seq 0 (S steps)).

(** Risk level assessment (lines 165-176): [(riskLevel, riskColor)]. *)
Definition riskOf (marginPercent : Q) : string * string :=
  if Qgt_bool marginPercent 70 then ("EXTREME"%string, "red"%string)
  else if Qgt_bool marginPercent 50 then ("HIGH"%string, "orange"%string)
  else if Qgt_bool marginPercent 30 then ("MODERATE"%string, "yellow"%string)
  else ("LOW"%string, "green"%string).

(** The object returned when a position is open (lines 178-229). *)
Record Snapshot := {
  numTriggered : nat;
  totalLots : Q;
  totalOunces : Q;
  usedMargin : Q;
  notionalUSC : Q;
  marginPercent : Q;
  totalPotentialProfit : Q;
  avgEntryFixed : Q;
  currentFloatingPL : Q;
  breakEvenPrice : Q;
  profitTargetPrice : Q;
  drop10 : Q;
  drop25 : Q;
  drop50 : Q;
  drop100 : Q;
  marginCallPrice : Q;
  maxSafeDrop : Q;
  riskLevel : string;
  riskColor : string;
  lowestTriggered : Q;
  currentEquity : Q;
  noPositions : bool;
  equityCurveData : list Point
}.

(** What [analysis] returns when it returns an object: the two-field
    [{ numTriggered: 0, noPositions: true }] or the full snapshot. *)
Inductive Result :=
| NoPosition (numTriggered : nat) (noPositions : bool)
| Position (s : Snapshot).

(** [analysis] (lines 50-230); [None] is [null]. *)
Definition analysis (P : Params) : option Result :=
  if (length (table P) =? 0)%nat then None
  else
    let triggeredLevels := triggeredLevels P in
    let numTriggered := length triggeredLevels in
    if (numTriggered =? 0)%nat then Some (NoPosition 0 true)
    else
      let lastTriggered := lastTriggered P in
      let totalLots := Row.cumulativeLots lastTriggered in
      let totalOunces := Row.totalOunces lastTriggered in
      let currentNotionalUSD := toFixed (currentPrice P * totalOunces) 2 in
      let notionalUSC := toFixed (currentNotionalUSD * 100) 2 in
      let usedMargin := toFixed ((currentNotionalUSD / leverage P) * 100) 2 in
      let marginPercent :=
        toFixed ((usedMargin / orElse (balanceUSC P) 1) * 100) 2 in
      let profitPerLotUSC := toFixed ((tp P * contractSize P) * 100) 2 in
      let totalPotentialProfit := toFixed (totalLots * profitPerLotUSC) 2 in
      let avgEntry := avgEntry P in
      let avgEntryFixed := toFixed avgEntry 2 in
      let currentFloatingPL :=
        toFixed ((currentPrice P - avgEntry) * totalOunces * 100) 2 in
      let breakEvenPrice := avgEntryFixed in
      let profitTargetPrice := toFixed (avgEntryFixed + tp P) 2 in
      let marginCallPrice := findMarginCallPrice P in
      let maxSafeDrop := toFixed (currentPrice P - marginCallPrice) 2 in
      let currentEquity := toFixed (balanceUSC P + currentFloatingPL) 2 in
      Some (Position
        {| numTriggered := numTriggered;
           totalLots := totalLots;
           totalOunces := totalOunces;
           usedMargin := usedMargin;
           notionalUSC := notionalUSC;
           marginPercent := marginPercent;
           totalPotentialProfit := totalPotentialProfit;
           avgEntryFixed := avgEntryFixed;
           currentFloatingPL := currentFloatingPL;
           breakEvenPrice := breakEvenPrice;
           profitTargetPrice := profitTargetPrice;
           drop10 := simulateDrop P 10;
           drop25 := simulateDrop P 25;
           drop50 := simulateDrop P 50;
           drop100 := simulateDrop P 100;
           marginCallPrice := marginCallPrice;
           maxSafeDrop := maxSafeDrop;
           riskLevel := fst (riskOf marginPercent);
           riskColor := snd (riskOf marginPercent);
           lowestTriggered := Row.levelPrice lastTriggered;
           currentEquity := currentEquity;
           noPositions := false;
           equityCurveData := equityCurve P marginCallPrice |}).

End App.

(** ** The dark-mode variant (the second presentation file) *)

Module Part000.

(** [table] (lines 109-139). *)
Definition tableRow (P : Params) (i : nat) : Row.t :=
  let iq := inject_Z (Z.of_nat i) in
  let levelPrice := toFixed (gridStartPrice P - iq * step P) precision in
  let lotsAtThisLevel := toFixed (lotSize P) 4 in
  let cumulativeLots := toFixed (lotsAtThisLevel * (iq + 1)) 4 in
  let totalOunces := toFixed (cumulativeLots * contractSize P) 2 in
  let notionalUSD := toFixed (levelPrice * totalOunces) 2 in
  let notionalUSC := toFixed (notionalUSD * 100) 2 in
  let margin := toFixed ((notionalUSD / leverage P) * 100) 2 in
  let profitPerLotUSC := toFixed ((tp P * contractSize P) * 100) 2 in
  let potentialProfitIfAllClosed :=
    toFixed ((lotsAtThisLevel * (iq + 1)) * profitPerLotUSC) 2 in
  let isTriggered := Qle_bool (currentPrice P) levelPrice in
  {| Row.idx := Z.of_nat i + 1;
     Row.levelPrice := levelPrice;
     Row.lotsAtThisLevel := lotsAtThisLevel;
     Row.cumulativeLots := cumulativeLots;
     Row.totalOunces := totalOunces;
     Row.notionalUSD := notionalUSD;
     Row.notionalUSC := notionalUSC;
     Row.margin := margin;
     Row.potentialProfitIfAllClosed := potentialProfitIfAllClosed;
     Row.isTriggered := isTriggered |}.

Definition table (P : Params) : list Row.t :=
  map (tableRow P) (seq 0 (Z.to_nat (levels P))).

Definition triggeredAt (tbl : list Row.t) (p : Q) : list Row.t :=
  filter (fun r => Qle_bool p (Row.levelPrice r)) tbl.

Definition entryOver (rows : list Row.t) (lots : Q) : Q :=
  fold_left (fun s r => s + Row.levelPrice r * Row.lotsAtThisLevel r) rows 0 / lots.

Definition triggeredLevels (P : Params) : list Row.t :=
  filter Row.isTriggered (table P).

Definition lastTriggered (P : Params) : Row.t := lastRow (triggeredLevels P).

Definition avgEntry (P : Params) : Q :=
  entryOver (triggeredLevels P) (Row.cumulativeLots (lastTriggered P)).

(** [simulateDrop] (lines 184-200). *)
Definition simulateDrop (P : Params) (dropAmount : Q) : Q :=
  let newPrice := currentPrice P - dropAmount in
  let newTriggered := triggeredAt (table P) newPrice in
  if (length newTriggered =? 0)%nat then 0
  else
    let lastNew := lastRow newTriggered in
    let newTotalOunces := Row.totalOunces lastNew in
    let newTotalLots := Row.cumulativeLots lastNew in
    let newAvgEntry := entryOver newTriggered newTotalLots in
    toFixed ((newPrice - newAvgEntry) * newTotalOunces * 100) 2.

Definition stopOutLevel : Q := 1 # 2.

(** [equityAtMid] (lines 224-230, again 256-262 and 346-351) and
    [usedMarginAtMid] (lines 264-265). *)
Definition equityAt (P : Params) (mid : Q) : Q :=
  let triggeredAtMid := triggeredAt (table P) mid in
  let lastAtMid := lastRow triggeredAtMid in
  let totalLotsAtMid := Row.cumulativeLots lastAtMid in
  let totalOuncesAtMid := Row.totalOunces lastAtMid in
  let avgEntryAtMid := entryOver triggeredAtMid totalLotsAtMid in
  let floatingPLAtMid := (mid - avgEntryAtMid) * totalOuncesAtMid * 100 in
  balanceUSC P + floatingPLAtMid.

Definition usedMarginAt (P : Params) (mid : Q) : Q :=
  let triggeredAtMid := triggeredAt (table P) mid in
  let lastAtMid := lastRow triggeredAtMid in
  let totalOuncesAtMid := Row.totalOunces lastAtMid in
  let notionalUSDAtMid := mid * totalOuncesAtMid in
  (notionalUSDAtMid / leverage P) * 100.

(** [findPriceForEquity] (lines 210-240): one pass, the loop, the result. *)
Definition equityTargetStep (P : Params) (targetEquity : Q) (s : Search) : Search :=
  let mid := (low s + high s) / 2 in
  let triggeredAtMid := triggeredAt (table P) mid in
  if (length triggeredAtMid =? 0)%nat then
    {| low := low s; high := mid; hit := hit s |}
  else if Qle_bool (equityAt P mid) targetEquity then
    {| low := mid; high := high s; hit := mid |}
  else
    {| low := low s; high := mid; hit := hit s |}.

Definition findPriceForEquity (P : Params) (targetEquity : Q) : Q :=
  toFixed
    (hit (iterate 20 (equityTargetStep P targetEquity)
            {| low := 0; high := currentPrice P; hit := 0 |})) 2.

(** [marginCallPrice] (lines 242-275): one pass, the loop, the result. *)
Definition marginCallStep (P : Params) (s : Search) : Search :=
  let mid := (low s + high s) / 2 in
  let triggeredAtMid := triggeredAt (table P) mid in
  if (length triggeredAtMid =? 0)%nat then
    {| low := low s; high := mid; hit := hit s |}
  else if Qle_bool (equityAt P mid) (usedMarginAt P mid * stopOutLevel) then
    {| low := mid; high := high s; hit := mid |}
  else
    {| low := low s; high := mid; hit := hit s |}.

Definition marginCallSearch (P : Params) : Search :=
  iterate 20 (marginCallStep P) {| low := 0; high := currentPrice P; hit := 0 |}.

Definition findMarginCallPrice (P : Params) : Q :=
  toFixed (hit (marginCallSearch P)) 2.

(** [equityCurveData] (lines 330-357). *)
Definition equityCurvePoint (P : Params) (startP stepSize : Q) (i : nat) : Point :=
  let p := startP - inject_Z (Z.of_nat i) * stepSize in
  let triggeredAtP := triggeredAt (table P) p in
  let equityAtP :=
    if (0 <? length triggeredAtP)%nat then equityAt P p else balanceUSC P in
  {| price := p; equity := equityAtP |}.

Definition steps : nat := 50.

Definition equityCurve (P : Params) (marginCallPrice : Q) : list Point :=
  let startP := currentPrice P in
  let endP := Qmax 0 (marginCallPrice - 50) in
  let stepSize := (startP - endP) / inject_Z (Z.of_nat steps) in
  map (equityCurvePoint P startP stepSize) (seq 0 (S steps)).

(** Risk level assessment (lines 288-299). *)
Definition riskOf (marginPercent : Q) : string * string :=
  if Qgt_bool marginPercent 70 then ("EXTREME"%string, "red"%string)
  else if Qgt_bool marginPercent 50 then ("HIGH"%string, "orange"%string)
  else if Qgt_bool marginPercent 30 then ("MODERATE"%string, "yellow"%string)
  else ("LOW"%string, "green"%string).

(** The object returned when a position is open (lines 301-358). *)
Record Snapshot := {
  numTriggered : nat;
  totalLots : Q;
  totalOunces : Q;
  usedMargin : Q;
  notionalUSC : Q;
  marginPercent : Q;
  totalPotentialProfit : Q;
  avgEntryFixed : Q;
  currentFloatingPL : Q;
  breakEvenPrice : Q;
  profitTargetPrice : Q;
  drop10 : Q;
  drop25 : Q;
  drop50 : Q;
  drop100 : Q;
  marginCallPrice : Q;
  dd25Price : Q;
  dd50Price : Q;
  dd75Price : Q;
  dd25Amount : Q;
  dd50Amount : Q;
  dd75Amount : Q;
  maxSafeDrop : Q;
  riskLevel : string;
  riskColor : string;
  lowestTriggered : Q;
  currentEquity : Q;
  noPositions : bool;
  equityCurveData : list Point
}.

Inductive Result :=
| NoPosition (numTriggered : nat) (noPositions : bool)
| Position (s : Snapshot).

(** [analysis] (lines 141-359); [None] is [null]. *)
Definition analysis (P : Params) : option Result :=
  if (length (table P) =? 0)%nat then None
  else
    let triggeredLevels := triggeredLevels P in
    let numTriggered := length triggeredLevels in
    if (numTriggered =? 0)%nat then Some (NoPosition 0 true)
    else
      let lastTriggered := lastTriggered P in
      let totalLots := Row.cumulativeLots lastTriggered in
      let totalOunces := Row.totalOunces lastTriggered in
      let currentNotionalUSD := toFixed (currentPrice P * totalOunces) 2 in
      let notionalUSC := toFixed (currentNotionalUSD * 100) 2 in
      let usedMargin := toFixed ((currentNotionalUSD / leverage P) * 100) 2 in
      let marginPercent :=
        toFixed ((usedMargin / orElse (balanceUSC P) 1) * 100) 2 in
      let profitPerLotUSC := toFixed ((tp P * contractSize P) * 100) 2 in
      let totalPotentialProfit := toFixed (totalLots * profitPerLotUSC) 2 in
      let avgEntry := avgEntry P in
      let avgEntryFixed := toFixed avgEntry 2 in
      let currentFloatingPL :=
        toFixed ((currentPrice P - avgEntry) * totalOunces * 100) 2 in
      let breakEvenPrice := avgEntryFixed in
      let profitTargetPrice := toFixed (avgEntryFixed + tp P) 2 in
      let marginCallPrice := findMarginCallPrice P in
      let dd25Price := findPriceForEquity P (balanceUSC P * (75 # 100)) in
      let dd50Price := findPriceForEquity P (balanceUSC P * (50 # 100)) in
      let dd75Price := findPriceForEquity P (balanceUSC P * (25 # 100)) in
      let dd25Amount := toFixed (balanceUSC P * (25 # 100)) 2 in
      let dd50Amount := toFixed (balanceUSC P * (50 # 100)) 2 in
      let dd75Amount := toFixed (balanceUSC P * (75 # 100)) 2 in
      let maxSafeDrop := toFixed (currentPrice P - marginCallPrice) 2 in
      let currentEquity := toFixed (balanceUSC P + currentFloatingPL) 2 in
      Some (Position
        {| numTriggered := numTriggered;
           totalLots := totalLots;
           totalOunces := totalOunces;
           usedMargin := usedMargin;
           notionalUSC := notionalUSC;
           marginPercent := marginPercent;
           totalPotentialProfit := totalPotentialProfit;
           avgEntryFixed := avgEntryFixed;
           currentFloatingPL := currentFloatingPL;
           breakEvenPrice := breakEvenPrice;
           profitTargetPrice := profitTargetPrice;
           drop10 := simulateDrop P 10;
           drop25 := simulateDrop P 25;
           drop50 := simulateDrop P 50;
           drop100 := simulateDrop P 100;
           marginCallPrice := marginCallPrice;
           dd25Price := dd25Price;
           dd50Price := dd50Price;
           dd75Price := dd75Price;
           dd25Amount := dd25Amount;
           dd50Amount := dd50Amount;
           dd75Amount := dd75Amount;
           maxSafeDrop := maxSafeDrop;
           riskLevel := fst (riskOf marginPercent);
           riskColor := snd (riskOf marginPercent);
           lowestTriggered := Row.levelPrice lastTriggered;
           currentEquity := currentEquity;
           noPositions := false;
           equityCurveData := equityCurve P marginCallPrice |}).

End Part000.

(** ** Definitions the statements below use *)

(** The bound from which [toFixed] prints the number itself, and the power
    of ten that scales [d] decimals to an integer. *)
Definition big : Q := inject_Z (10 ^ 21).
Definition scale (d : nat) : Q := inject_Z (Zpos (pow10 d)).

(** [P] with another reference price. *)
Definition atPrice (P : Params) (p : Q) : Params :=
  {| gridStartPrice := gridStartPrice P; currentPrice := p; step := step P;
     lotSize := lotSize P; levels := levels P; tp := tp P;
     balanceUSC := balanceUSC P; leverage := leverage P;
     contractSize := contractSize P |}.

(** The test a probe price passes in [findMarginCallPrice]: some level is
    triggered (line 131) and equity is at most half the used margin
    (line 148). *)
Definition stopOut (P : Params) (p : Q) : bool :=
  negb (length (App.triggeredAt (App.table P) p) =? 0)%nat &&
  Qle_bool (App.equityAt P p) (App.usedMarginAt P p * App.stopOutLevel).


Definition pow2 (n : nat) : Q := inject_Z (2 ^ Z.of_nat n).

(** What holds of the loop state after [n] passes. *)
Definition searchInv (P : Params) (n : nat) (s : Search) : Prop :=
  hit s = low s /\
  (high s - low s) * pow2 n == currentPrice P /\
  (hit s = 0 \/ stopOut P (hit s) = true) /\
  (high s = currentPrice P \/ stopOut P (high s) = false) /\
  (0 <= currentPrice P -> 0 <= low s /\ high s <= currentPrice P).


(** The fields both snapshots carry. *)
Definition snapshots_agree (a : App.Snapshot) (b : Part000.Snapshot) : Prop :=
  App.numTriggered a = Part000.numTriggered b /\
  App.totalLots a = Part000.totalLots b /\
  App.totalOunces a = Part000.totalOunces b /\
  App.usedMargin a = Part000.usedMargin b /\
  App.notionalUSC a = Part000.notionalUSC b /\
  App.marginPercent a = Part000.marginPercent b /\
  App.totalPotentialProfit a = Part000.totalPotentialProfit b /\
  App.avgEntryFixed a = Part000.avgEntryFixed b /\
  App.currentFloatingPL a = Part000.currentFloatingPL b /\
  App.breakEvenPrice a = Part000.breakEvenPrice b /\
  App.profitTargetPrice a = Part000.profitTargetPrice b /\
  App.drop10 a = Part000.drop10 b /\
  App.drop25 a = Part000.drop25 b /\
  App.drop50 a = Part000.drop50 b /\
  App.drop100 a = Part000.drop100 b /\
  App.marginCallPrice a = Part000.marginCallPrice b /\
  App.maxSafeDrop a = Part000.maxSafeDrop b /\
  App.riskLevel a = Part000.riskLevel b /\
  App.riskColor a = Part000.riskColor b /\
  App.lowestTriggered a = Part000.lowestTriggered b /\
  App.currentEquity a = Part000.currentEquity b /\
  App.noPositions a = Part000.noPositions b /\
  App.equityCurveData a = Part000.equityCurveData b.

Definition results_agree (a : option App.Result) (b : option Part000.Result) : Prop :=
  match a, b with
  | None, None => True
  | Some (App.NoPosition n f), Some (Part000.NoPosition n' f') => n = n' /\ f = f'
  | Some (App.Position s), Some (Part000.Position s') => snapshots_agree s s'
  | _, _ => False
  end.

(** The sum of the first [k] level prices. *)
Fixpoint priceSum (P : Params) (k : nat) : Q :=
  match k with
  | O => 0
  | S k' => priceSum P k' + Row.levelPrice (App.tableRow P k')
  end.

(** Every row holds [c] ounces per level: the two-decimal rounding of
    [cumulativeLots * contractSize] loses nothing. *)
Definition proportionalOunces (P : Params) (c : Q) : bool :=
  forallb (fun i => Qeq_bool (Row.totalOunces (App.tableRow P i))
                             (c * (inject_Z (Z.of_nat i) + 1)))
          (seq 0 (Z.to_nat (levels P))).

(** ** Sample inputs *)

(** The default inputs of both files. *)
Definition defaults : Params :=
  {| gridStartPrice := 2650; currentPrice := 2600; step := 5;
     lotSize := 1 # 10; levels := 20; tp := 5; balanceUSC := 10000;
     leverage := 2000; contractSize := 1 |}.

(** A step of a tenth of a cent, strictly positive but lost in the
    two-decimal rounding of the level price, and a negative lot size. *)
Definition fineStep : Params :=
  {| gridStartPrice := 2650; currentPrice := 2600; step := 1 # 1000;
     lotSize := - (1 # 10); levels := 2; tp := 5; balanceUSC := 10000;
     leverage := 2000; contractSize := 1 |}.

(** A start price a tenth of a cent below 2650: level 0 is rounded up to
    2650.00, which the current price 2650 reaches. *)
Definition roundedStart : Params :=
  {| gridStartPrice := 2649999 # 1000; currentPrice := 2650; step := 5;
     lotSize := 1 # 10; levels := 1; tp := 5; balanceUSC := 10000;
     leverage := 2000; contractSize := 1 |}.

(** The default inputs with no level. *)
Definition noLevels : Params :=
  {| gridStartPrice := 2650; currentPrice := 2600; step := 5;
     lotSize := 1 # 10; levels := 0; tp := 5; balanceUSC := 10000;
     leverage := 2000; contractSize := 1 |}.

(** The default inputs with a balance of half a minor unit. *)
Definition halfBalance : Params :=
  {| gridStartPrice := 2650; currentPrice := 2600; step := 5;
     lotSize := 1 # 10; levels := 20; tp := 5; balanceUSC := 1 # 2;
     leverage := 2000; contractSize := 1 |}.

(** One level at price 7 with leverage 100 and balance 10: marginPercent is
    exactly 70. *)
Definition seventy : Params :=
  {| gridStartPrice := 7; currentPrice := 7; step := 1; lotSize := 1;
     levels := 1; tp := 1; balanceUSC := 10; leverage := 100;
     contractSize := 1 |}.




(** ** The properties as the specification words them

    Each is refuted below at one of the sample inputs and then proved in
    the form the code supports. *)



(** C3 as stated: currentPrice above startPrice leaves nothing triggered. *)
Definition no_position_boundary_as_stated (P : Params) : Prop :=
  (0 < levels P)%Z -> gridStartPrice P < currentPrice P ->
  length (App.triggeredLevels P) = 0%nat /\
  App.analysis P = Some (App.NoPosition 0 true).

(** C4 as stated: the divisor of marginPercent is max(balance, 1). *)
Definition margin_percent_as_stated (P : Params) : Prop :=
  App.triggeredLevels P <> [] ->
  exists s, App.analysis P = Some (App.Position s) /\
    App.marginPercent s ==
      toFixed ((App.usedMargin s / Qmax (balanceUSC P) 1) * 100) 2.

(** C6 as stated: no levels give the NoPosition object. *)
Definition empty_ladder_as_stated (P : Params) : Prop :=
  (levels P <= 0)%Z ->
  App.table P = [] /\ App.analysis P = Some (App.NoPosition 0 true).



(** ** Definitions for the further properties *)

(** The unrounded floating P/L at a probe price: [floatingPLAtMid] of the
    search body (App lines 137-142), the argument of [toFixed] in
    [simulateDrop] (lines 100-108) and in [currentFloatingPL] (line 84). *)
Definition floatingAt (P : Params) (p : Q) : Q :=
  let triggered := App.triggeredAt (App.table P) p in
  let lastRowAt := lastRow triggered in
  (p - App.entryOver triggered (Row.cumulativeLots lastRowAt))
  * Row.totalOunces lastRowAt * 100.

(** One pass of a bisection loop of the engine, with its test on [mid] as a
    parameter: both the margin-call loop and [findPriceForEquity] have this
    shape. *)
Definition bisectStep (test : Q -> bool) (s : Search) : Search :=
  let mid := (low s + high s) / 2 in
  if test mid then {| low := mid; high := high s; hit := mid |}
  else {| low := low s; high := mid; hit := hit s |}.

(** The test a probe price passes in [findPriceForEquity] (second file,
    lines 219 and 232). *)
Definition reachesTarget (P : Params) (targetEquity p : Q) : bool :=
  negb (length (Part000.triggeredAt (Part000.table P) p) =? 0)%nat &&
  Qle_bool (Part000.equityAt P p) targetEquity.

(** The loop of [findPriceForEquity] from its initial state. *)
Definition equityTargetSearch (P : Params) (targetEquity : Q) : Search :=
  iterate 20 (Part000.equityTargetStep P targetEquity)
          {| low := 0; high := currentPrice P; hit := 0 |}.

(** What holds of a bisection state after [n] passes over [[0, c]]. *)
Definition bisectInv (test : Q -> bool) (c : Q) (n : nat) (s : Search) : Prop :=
  hit s = low s /\
  (high s - low s) * pow2 n == c /\
  (hit s = 0 \/ test (hit s) = true) /\
  (high s = c \/ test (high s) = false) /\
  (0 <= c -> 0 <= low s /\ high s <= c).

(** Two bisection states over [[0, c]] whose lower bounds are a whole number
    of cells apart, the second ahead. *)
Definition aligned (c : Q) (n : nat) (a b : Search) : Prop :=
  exists j : Z, (0 <= j)%Z /\ (low b - low a) * pow2 n == inject_Z j * c.

(** ** [EquityChart] and [GridLadder] of [src/App.tsx]: the numbers they
    draw *)

Module Chart.












(** [GridLadder] (lines 311-330): [maxLots], for a ladder with at least one
    row (on an empty one [Math.max()] is minus infinity and no bar is
    drawn), and the width of a row's bar in percent. *)
Definition maxLots (table : list Row.t) : Q :=
  match map Row.lotsAtThisLevel table with
  | [] => 0
  | x :: xs => fold_right Qmax x xs
  end.

Definition barWidth (table : list Row.t) (row : Row.t) : Q :=
  (Row.lotsAtThisLevel row / maxLots table) * 100.

(** [getRiskColorClass] (lines 247-255): the own properties of [colors] as
    an association list; names inherited from [Object.prototype] are outside
    the model. *)
Definition colors : list (string * string) :=
  [ ("green"%string, "bg-green-100 border-green-300 text-green-900"%string);
    ("yellow"%string, "bg-yellow-100 border-yellow-300 text-yellow-900"%string);
    ("orange"%string, "bg-orange-100 border-orange-300 text-orange-900"%string);
    ("red"%string, "bg-red-100 border-red-300 text-red-900"%string) ].

Fixpoint property (key : string) (obj : list (string * string)) : option string :=
  match obj with
  | [] => None
  | (k, v) :: rest => if String.eqb k key then Some v else property key rest
  end.

(** [colors[color] || colors.green]: an absent or empty entry falls back. *)
Definition getRiskColorClass (color : string) : option string :=
  match property color colors with
  | Some v => if String.eqb v EmptyString then property "green"%string colors
              else Some v
  | None => property "green"%string colors
  end.

End Chart.

(** ** [getCookie] of the second file (lines 11-20)

    The function reads [document.cookie], a string; it is the first argument
    here.  Characters are modelled as [ascii]. *)

Module Cookie.

(** [s.split(sep)] for a one-character separator. *)
Fixpoint split (sep : ascii) (s : string) : list string :=
  match s with
  | EmptyString => [EmptyString]
  | String ch rest =>
      if Ascii.eqb ch sep then EmptyString :: split sep rest
      else match split sep rest with
           | [] => [String ch EmptyString]
           | seg :: segs => String ch seg :: segs
           end
  end.

(** [while (c.charAt(0) === ' ') c = c.substring(1, c.length)] *)
Fixpoint dropSpaces (c : string) : string :=
  match c with
  | String ch rest => if Ascii.eqb ch " "%char then dropSpaces rest else c
  | EmptyString => c
  end.

(** [c.substring(n, c.length)] *)
Fixpoint dropChars (n : nat) (c : string) : string :=
  match n, c with
  | O, _ => c
  | S k, String _ rest => dropChars k rest
  | S _, EmptyString => EmptyString
  end.

(** The [for] loop over [ca]; [c.indexOf(nameEQ) === 0] says that [c]
    starts with [nameEQ]. *)
Fixpoint getCookieLoop (nameEQ : string) (ca : list string) : option string :=
  match ca with
  | [] => None
  | c0 :: rest =>
      let c := dropSpaces c0 in
      if String.prefix nameEQ c
      then Some (dropChars (String.length nameEQ) c)
      else getCookieLoop nameEQ rest
  end.

Definition getCookie (cookie name : string) : option string :=
  getCookieLoop (name ++ "=")%string (split ";"%char cookie).

End Cookie.

(** A cookie jar as the browser prints it: [name=value] pairs joined by
    a semicolon and a space. *)
Definition pairText (kv : string * string) : string :=
  (fst kv ++ "=" ++ snd kv)%string.

Fixpoint jarText (kvs : list (string * string)) : string :=
  match kvs with
  | [] => EmptyString
  | [kv] => pairText kv
  | kv :: rest => (pairText kv ++ "; " ++ jarText rest)%string
  end.

(** The value of the first pair named [name]. *)
Fixpoint firstValue (name : string) (kvs : list (string * string)) : option string :=
  match kvs with
  | [] => None
  | (k, v) :: rest => if String.eqb k name then Some v else firstValue name rest
  end.

Fixpoint hasChar (ch : ascii) (s : string) : bool :=
  match s with
  | EmptyString => false
  | String x rest => Ascii.eqb x ch || hasChar ch rest
  end.

(** A name has no [;] and no [=] and does not start with a space; a value
    has no [;]. *)
Definition cleanName (k : string) : bool :=
  negb (hasChar ";"%char k) && negb (hasChar "="%char k) &&
  negb (String.prefix " "%string k).

Definition cleanValue (v : string) : bool := negb (hasChar ";"%char v).

Definition cleanPair (kv : string * string) : bool :=
  cleanName (fst kv) && cleanValue (snd kv).

(** * Properties of the primitives *)

Example toFixed_half_up : Qeq_bool (toFixed (2649985 # 1000) 2) (264999 # 100) = true.
Proof. reflexivity. Qed.

Example toFixed_neg : Qeq_bool (toFixed (- (5 # 1000)) 2) (- (1 # 100)) = true.
Proof. reflexivity. Qed.

Section Rounding.

Lemma Qlt_bool_iff (a b : Q) : Qlt_bool a b = true <-> a < b.
Proof.
  unfold Qlt_bool. rewrite negb_true_iff.
  split; intro H.
  - apply Qnot_le_lt. intro Hle. apply Qle_bool_iff in Hle. congruence.
  - destruct (Qle_bool b a) eqn:E; trivial.
    apply Qle_bool_iff in E. exfalso. apply (Qlt_not_le _ _ H E).
Qed.

Lemma Qlt_bool_false (a b : Q) : Qlt_bool a b = false <-> b <= a.
Proof.
  unfold Qlt_bool. rewrite negb_false_iff. apply Qle_bool_iff.
Qed.

Lemma Qle_bool_false (a b : Q) : Qle_bool a b = false <-> b < a.
Proof.
  rewrite <- Qlt_bool_iff. unfold Qlt_bool.
  destruct (Qle_bool a b); simpl; intuition congruence.
Qed.

Lemma Qfloor_lower (x : Q) : inject_Z (Qfloor x) <= x.
Proof. apply Qfloor_le. Qed.

Lemma Qfloor_upper (x : Q) : x < inject_Z (Qfloor x) + 1.
Proof.
  generalize (Qlt_floor x). rewrite inject_Z_plus. trivial.
Qed.

(** The rounded integer is within one half of its argument, and a tie is
    resolved away from zero. *)
Lemma roundHalfAway_nonneg (t : Q) :
  0 <= t -> t - (1 # 2) < inject_Z (roundHalfAway t) <= t + (1 # 2).
Proof.
  intro Ht. unfold roundHalfAway.
  destruct (Qlt_bool t 0) eqn:E.
  - apply Qlt_bool_iff in E. lra.
  - generalize (Qfloor_lower (t + (1 # 2))) (Qfloor_upper (t + (1 # 2))). lra.
Qed.

Lemma roundHalfAway_neg (t : Q) :
  t < 0 -> t - (1 # 2) <= inject_Z (roundHalfAway t) < t + (1 # 2).
Proof.
  intro Ht. unfold roundHalfAway.
  destruct (Qlt_bool t 0) eqn:E.
  - rewrite inject_Z_opp.
    generalize (Qfloor_lower (- t + (1 # 2))) (Qfloor_upper (- t + (1 # 2))). lra.
  - apply Qlt_bool_false in E. lra.
Qed.

Lemma roundHalfAway_bounds (t : Q) :
  t - (1 # 2) <= inject_Z (roundHalfAway t) <= t + (1 # 2).
Proof.
  destruct (Qlt_le_dec t 0) as [H | H].
  - generalize (roundHalfAway_neg t H). lra.
  - generalize (roundHalfAway_nonneg t H). lra.
Qed.

Lemma inject_Z_lt_succ (a b : Z) : inject_Z a < inject_Z b + 1 -> (a <= b)%Z.
Proof.
  intro H. change 1 with (inject_Z 1) in H.
  rewrite <- inject_Z_plus, <- Zlt_Qlt in H. lia.
Qed.

Lemma roundHalfAway_mono (t u : Q) :
  t <= u -> (roundHalfAway t <= roundHalfAway u)%Z.
Proof.
  intro H. apply inject_Z_lt_succ.
  destruct (Qlt_le_dec u 0) as [Hu | Hu].
  - generalize (roundHalfAway_neg t ltac:(lra)) (roundHalfAway_neg u Hu). lra.
  - generalize (roundHalfAway_bounds t) (roundHalfAway_nonneg u Hu). lra.
Qed.


Lemma roundHalfAway_Z (z : Z) : roundHalfAway (inject_Z z) = z.
Proof.
  apply Z.le_antisymm; apply inject_Z_lt_succ.
  - destruct (Qlt_le_dec (inject_Z z) 0) as [H | H].
    + generalize (roundHalfAway_neg _ H). lra.
    + generalize (roundHalfAway_nonneg _ H). lra.
  - destruct (Qlt_le_dec (inject_Z z) 0) as [H | H].
    + generalize (roundHalfAway_neg _ H). lra.
    + generalize (roundHalfAway_nonneg _ H). lra.
Qed.

Lemma roundHalfAway_comp (t u : Q) : t == u -> roundHalfAway t = roundHalfAway u.
Proof.
  intro H. apply Z.le_antisymm; apply roundHalfAway_mono; lra.
Qed.

End Rounding.

Section ToFixed.

Lemma scale_pos (d : nat) : 0 < scale d.
Proof. unfold scale. change 0 with (inject_Z 0). rewrite <- Zlt_Qlt. lia. Qed.

Lemma Qabs_cases (x : Q) : (0 <= x /\ Qabs x == x) \/ (x < 0 /\ Qabs x == - x).
Proof.
  destruct (Qlt_le_dec x 0) as [H | H].
  - right. split; trivial. apply Qabs_neg. lra.
  - left. split; trivial. apply Qabs_pos. trivial.
Qed.

Lemma toFixed_cases (x : Q) (d : nat) :
  (big <= Qabs x /\ toFixed x d = x) \/
  (Qabs x < big /\
   toFixed x d = (roundHalfAway (x * scale d) # pow10 d)).
Proof.
  unfold toFixed. fold big. fold (scale d).
  destruct (Qle_bool big (Qabs x)) eqn:E.
  - left. split; trivial. apply Qle_bool_iff. trivial.
  - right. split; trivial. apply Qle_bool_false. trivial.
Qed.

Lemma Qmake_scaled (z : Z) (d : nat) : (z # pow10 d) * scale d == inject_Z z.
Proof.
  rewrite Qmake_Qdiv. fold (scale d). field.
  generalize (scale_pos d). lra.
Qed.

Lemma big_scaled (d : nat) : big * scale d == inject_Z (10 ^ 21 * Zpos (pow10 d)).
Proof. unfold big, scale. rewrite inject_Z_mult. reflexivity. Qed.

Lemma roundHalfAway_above (z : Z) (t : Q) :
  inject_Z z <= t -> inject_Z z <= inject_Z (roundHalfAway t).
Proof.
  intro H. apply roundHalfAway_mono in H.
  rewrite roundHalfAway_Z in H. rewrite <- Zle_Qle. trivial.
Qed.

Lemma roundHalfAway_below (z : Z) (t : Q) :
  t <= inject_Z z -> inject_Z (roundHalfAway t) <= inject_Z z.
Proof.
  intro H. apply roundHalfAway_mono in H.
  rewrite roundHalfAway_Z in H. rewrite <- Zle_Qle. trivial.
Qed.

(** Rounding moves a number by at most half a unit of the last digit. *)
Lemma toFixed_error (x : Q) (d : nat) :
  x * scale d - (1 # 2) <= toFixed x d * scale d <= x * scale d + (1 # 2).
Proof.
  destruct (toFixed_cases x d) as [[_ E] | [_ E]]; rewrite E.
  - lra.
  - rewrite Qmake_scaled. apply roundHalfAway_bounds.
Qed.

Lemma toFixed_error2 (x : Q) :
  x - (1 # 200) <= toFixed x 2 <= x + (1 # 200).
Proof.
  generalize (toFixed_error x 2). change (scale 2) with 100. lra.
Qed.

Lemma toFixed_mono (x y : Q) (d : nat) : x <= y -> toFixed x d <= toFixed y d.
Proof.
  intro H. apply (Qmult_le_r _ _ (scale d) (scale_pos d)).
  pose proof (scale_pos d) as Hs.
  pose proof (big_scaled d) as Hb.
  assert (Hbig : 0 < big) by reflexivity.
  destruct (toFixed_cases x d) as [[Bx Ex] | [Bx Ex]];
    destruct (toFixed_cases y d) as [[By Ey] | [By Ey]]; rewrite Ex, Ey;
    rewrite ?Qmake_scaled.
  - nra.
  - destruct (Qabs_cases x) as [[Sx Ax] | [Sx Ax]];
      destruct (Qabs_cases y) as [[Sy Ay] | [Sy Ay]]; try lra;
      (apply Qle_trans with (y := inject_Z (- (10 ^ 21 * Zpos (pow10 d))));
       [ rewrite inject_Z_opp; nra
       | apply roundHalfAway_above; rewrite inject_Z_opp; nra ]).
  - destruct (Qabs_cases x) as [[Sx Ax] | [Sx Ax]];
      destruct (Qabs_cases y) as [[Sy Ay] | [Sy Ay]]; try lra;
      (apply Qle_trans with (y := inject_Z (10 ^ 21 * Zpos (pow10 d)));
       [ apply roundHalfAway_below; nra | nra ]).
  - rewrite <- Zle_Qle. apply roundHalfAway_mono. nra.
Qed.



(** A number that already has [d] decimals is left alone. *)
Lemma toFixed_exact (x : Q) (z : Z) (d : nat) :
  x * scale d == inject_Z z -> toFixed x d == x.
Proof.
  intro H. pose proof (scale_pos d) as Hs.
  destruct (toFixed_cases x d) as [[_ E] | [_ E]]; rewrite E.
  - reflexivity.
  - apply (Qmult_inj_r _ _ (scale d)); [lra |].
    rewrite Qmake_scaled, (roundHalfAway_comp _ _ H), roundHalfAway_Z.
    symmetry. trivial.
Qed.

Lemma toFixed_decimal (x : Q) (d : nat) :
  exists z : Z, big <= Qabs x /\ toFixed x d = x \/
                toFixed x d * scale d == inject_Z z.
Proof.
  destruct (toFixed_cases x d) as [[B E] | [_ E]].
  - exists 0%Z. left. split; trivial.
  - exists (roundHalfAway (x * scale d)). right. rewrite E. apply Qmake_scaled.
Qed.

Lemma toFixed_comp (x y : Q) (d : nat) : x == y -> toFixed x d == toFixed y d.
Proof.
  intro H. apply Qle_antisym; apply toFixed_mono; lra.
Qed.

End ToFixed.

(** * The ladder *)

Section Ladder.

Variable P : Params.

Lemma table_length : length (App.table P) = Z.to_nat (levels P).
Proof. unfold App.table. rewrite length_map, length_seq. reflexivity. Qed.

Lemma table_nth (i : nat) (r : Row.t) :
  nth_error (App.table P) i = Some r ->
  (i < Z.to_nat (levels P))%nat /\ r = App.tableRow P i.
Proof.
  unfold App.table. intro H.
  assert (Hi : (i < length (map (App.tableRow P) (seq 0 (Z.to_nat (levels P)))))%nat)
    by (apply nth_error_Some; congruence).
  rewrite length_map, length_seq in Hi.
  split; trivial.
  rewrite (nth_error_map (App.tableRow P) i) in H.
  rewrite nth_error_seq in H.
  destruct (Nat.ltb_spec i (Z.to_nat (levels P))) as [_ | Hge]; [| lia].
  simpl in H. congruence.
Qed.

Lemma table_empty : (levels P <= 0)%Z -> App.table P = [].
Proof.
  intro H. unfold App.table.
  assert (E : Z.to_nat (levels P) = 0%nat) by lia.
  rewrite E. reflexivity.
Qed.

Lemma rawPrice_le (i j : nat) :
  0 <= step P -> (i <= j)%nat ->
  gridStartPrice P - inject_Z (Z.of_nat j) * step P
  <= gridStartPrice P - inject_Z (Z.of_nat i) * step P.
Proof.
  intros Hs Hij.
  assert (H : inject_Z (Z.of_nat i) <= inject_Z (Z.of_nat j))
    by (rewrite <- Zle_Qle; lia).
  nra.
Qed.


Lemma levelPrice_le (i j : nat) :
  0 <= step P -> (i <= j)%nat ->
  Row.levelPrice (App.tableRow P j) <= Row.levelPrice (App.tableRow P i).
Proof.
  intros Hs Hij. simpl. apply toFixed_mono, rawPrice_le; trivial.
Qed.


Lemma levelPrice_le_start (i : nat) :
  0 <= step P ->
  Row.levelPrice (App.tableRow P i) <= toFixed (gridStartPrice P) 2.
Proof.
  intro Hs. simpl. apply toFixed_mono.
  assert (H : 0 <= inject_Z (Z.of_nat i)).
  { change 0 with (inject_Z 0). rewrite <- Zle_Qle. lia. }
  nra.
Qed.

(** The flag stored in a row is the trigger test at the current price. *)
Lemma triggeredLevels_at :
  App.triggeredLevels P = App.triggeredAt (App.table P) (currentPrice P).
Proof.
  unfold App.triggeredLevels, App.triggeredAt, App.table.
  apply filter_ext_in. intros r Hr.
  apply in_map_iff in Hr. destruct Hr as [i [<- _]]. reflexivity.
Qed.

End Ladder.

Lemma filter_none {A : Type} (f : A -> bool) (l : list A) :
  (forall x, In x l -> f x = false) -> filter f l = [].
Proof.
  induction l as [| a l IH]; intro H; simpl; trivial.
  rewrite (H a) by (left; trivial). apply IH.
  intros x Hx. apply H. right. trivial.
Qed.

(** Filtering a list built by index with a test that only ever switches off
    keeps an initial segment. *)
Lemma filter_prefix {A : Type} (g : nat -> A) (f : A -> bool) :
  (forall i j, (i <= j)%nat -> f (g j) = true -> f (g i) = true) ->
  forall n s, exists k, (k <= n)%nat /\
    filter f (map g (seq s n)) = map g (seq s k) /\
    forall i, (s + k <= i < s + n)%nat -> f (g i) = false.
Proof.
  intros Hanti n. induction n as [| n IH]; intro s.
  - exists 0%nat. simpl. repeat split; trivial. intros i Hi. lia.
  - simpl. destruct (f (g s)) eqn:E.
    + destruct (IH (S s)) as [k [Hk [Hf Hrest]]].
      exists (S k). split; [lia |]. split.
      * simpl. rewrite Hf. reflexivity.
      * intros i Hi. apply Hrest. lia.
    + assert (Hall : forall i, (s <= i)%nat -> f (g i) = false).
      { intros i Hi. destruct (f (g i)) eqn:Ei; trivial.
        rewrite (Hanti s i Hi Ei) in E. discriminate. }
      exists 0%nat. split; [lia |]. split.
      * simpl. apply filter_none. intros x Hx.
        apply in_map_iff in Hx. destruct Hx as [i [<- Hi]].
        apply in_seq in Hi. apply Hall. lia.
      * intros i Hi. apply Hall. lia.
Qed.


Lemma filter_length_le {A : Type} (f g : A -> bool) (l : list A) :
  (forall x, f x = true -> g x = true) ->
  (length (filter f l) <= length (filter g l))%nat.
Proof.
  intro H. induction l as [| a l IH]; simpl; trivial.
  destruct (f a) eqn:E.
  - rewrite (H a E). simpl. lia.
  - destruct (g a); simpl; lia.
Qed.

Lemma filter_map_length {A B : Type} (f : B -> bool) (g : A -> B) (l : list A) :
  length (filter f (map g l)) = length (filter (fun x => f (g x)) l).
Proof.
  induction l as [| a l IH]; simpl; trivial.
  destruct (f (g a)); simpl; congruence.
Qed.

Section Triggered.

Variable P : Params.

(** With a non-negative step the rows triggered at any price are the first
    [k] rows of the ladder. *)
Lemma triggeredAt_prefix (p : Q) :
  0 <= step P ->
  exists k, (k <= Z.to_nat (levels P))%nat /\
    App.triggeredAt (App.table P) p = map (App.tableRow P) (seq 0 k) /\
    forall i, (k <= i < Z.to_nat (levels P))%nat ->
      Row.levelPrice (App.tableRow P i) < p.
Proof.
  intro Hs.
  destruct (filter_prefix (App.tableRow P)
              (fun r => Qle_bool p (Row.levelPrice r))) with
    (n := Z.to_nat (levels P)) (s := 0%nat) as [k [Hk [Hf Hrest]]].
  - intros i j Hij Hj. apply Qle_bool_iff. apply Qle_bool_iff in Hj.
    apply Qle_trans with (y := Row.levelPrice (App.tableRow P j)); trivial.
    apply levelPrice_le; trivial.
  - exists k. split; trivial. split; trivial.
    intros i Hi. apply Qle_bool_false. apply Hrest. lia.
Qed.


Lemma lots_nonneg : 0 <= lotSize P -> 0 <= toFixed (lotSize P) 4.
Proof.
  intro H. apply Qle_trans with (y := toFixed 0 4).
  - vm_compute. discriminate.
  - apply toFixed_mono. trivial.
Qed.


End Triggered.

Lemma numTriggered_atPrice (P : Params) (p : Q) :
  length (App.triggeredLevels (atPrice P p)) =
  length (App.triggeredAt (App.table P) p).
Proof.
  rewrite triggeredLevels_at. unfold App.triggeredAt, App.table.
  rewrite !filter_map_length. reflexivity.
Qed.

(** * The ladder invariant *)

Example fineStep_prices :
  map Row.levelPrice (App.table fineStep) = [265000 # 100; 265000 # 100].
Proof. reflexivity. Qed.

Example fineStep_lots :
  map Row.cumulativeLots (App.table fineStep) = [-1000 # 10000; -2000 # 10000].
Proof. reflexivity. Qed.




(** * The shape of [analysis] *)

Section AnalysisShape.

Variable P : Params.

Lemma analysis_null : App.table P = [] -> App.analysis P = None.
Proof. intro H. unfold App.analysis. rewrite H. reflexivity. Qed.

Lemma analysis_no_position :
  App.table P <> [] -> App.triggeredLevels P = [] ->
  App.analysis P = Some (App.NoPosition 0 true).
Proof.
  intros Ht Hn. unfold App.analysis. rewrite Hn.
  destruct (App.table P); [congruence | reflexivity].
Qed.

Lemma triggered_in_table : App.triggeredLevels P <> [] -> App.table P <> [].
Proof.
  unfold App.triggeredLevels. intros H E. rewrite E in H. apply H. reflexivity.
Qed.

(** With a triggered level the result is the full snapshot; the fields the
    theorems below talk about are spelled out. *)
Lemma analysis_position :
  App.triggeredLevels P <> [] ->
  exists s, App.analysis P = Some (App.Position s) /\
    App.numTriggered s = length (App.triggeredLevels P) /\
    App.usedMargin s =
      toFixed ((toFixed (currentPrice P * Row.totalOunces (App.lastTriggered P)) 2
                / leverage P) * 100) 2 /\
    App.marginPercent s =
      toFixed ((App.usedMargin s / orElse (balanceUSC P) 1) * 100) 2 /\
    App.avgEntryFixed s = toFixed (App.avgEntry P) 2 /\
    App.marginCallPrice s = App.findMarginCallPrice P /\
    App.riskLevel s = fst (App.riskOf (App.marginPercent s)) /\
    App.equityCurveData s = App.equityCurve P (App.findMarginCallPrice P).
Proof.
  intro H. pose proof (triggered_in_table H) as Ht.
  unfold App.analysis.
  destruct (App.table P) as [| r0 tbl]; [congruence |].
  destruct (App.triggeredLevels P) as [| t0 trig] eqn:E; [congruence |].
  cbn [length Nat.eqb].
  eexists. split; [reflexivity |].
  cbn [App.numTriggered App.usedMargin App.marginPercent App.avgEntryFixed
       App.marginCallPrice App.riskLevel App.equityCurveData].
  repeat split.
Qed.

Lemma analysis_position_inv (s : App.Snapshot) :
  App.analysis P = Some (App.Position s) -> App.triggeredLevels P <> [].
Proof.
  unfold App.analysis.
  destruct (length (App.table P) =? 0)%nat; [discriminate |].
  destruct (App.triggeredLevels P); [discriminate | discriminate].
Qed.

End AnalysisShape.

(** * No-position boundary *)

(** C3, as stated, fails: currentPrice 2650 > startPrice 2649.999, yet level 0
    (price 2650.00 after rounding) is triggered. *)
Lemma no_position_boundary_counterexample :
  ~ no_position_boundary_as_stated roundedStart /\
  gridStartPrice roundedStart < currentPrice roundedStart /\
  length (App.triggeredLevels roundedStart) = 1%nat.
Proof.
  split; [| split; reflexivity].
  intro H. destruct (H eq_refl eq_refl) as [Hn _].
  vm_compute in Hn. discriminate.
Qed.

(** C3 (amended): for levelCount > 0 and step >= 0, if currentPrice exceeds
    the start price as rounded to two decimals (the price of level 0), no
    level is triggered and the result is the NoPosition object. *)
Theorem no_position_boundary (P : Params) :
  (0 < levels P)%Z -> 0 <= step P ->
  toFixed (gridStartPrice P) 2 < currentPrice P ->
  length (App.triggeredLevels P) = 0%nat /\
  App.analysis P = Some (App.NoPosition 0 true).
Proof.
  intros Hl Hs Hc.
  assert (Hn : App.triggeredLevels P = []).
  { rewrite triggeredLevels_at. unfold App.triggeredAt.
    apply filter_none. intros r Hr.
    apply In_nth_error in Hr. destruct Hr as [i Hi].
    apply table_nth in Hi. destruct Hi as [_ ->].
    apply Qle_bool_false.
    apply Qle_lt_trans with (y := toFixed (gridStartPrice P) 2); trivial.
    apply levelPrice_le_start. trivial. }
  split.
  - rewrite Hn. reflexivity.
  - apply analysis_no_position; trivial.
    intro E. apply (f_equal (@length _)) in E. rewrite table_length in E.
    simpl in E. lia.
Qed.

Lemma no_position_boundary_witness :
  let P := atPrice defaults 2700 in
  length (App.triggeredLevels P) = 0%nat /\
  App.analysis P = Some (App.NoPosition 0 true).
Proof.
  apply (no_position_boundary (atPrice defaults 2700)).
  - reflexivity.
  - discriminate.
  - reflexivity.
Defined.

(** * Empty ladder *)

(** C6, as stated, fails: with levelCount = 0 the result is [null], not the
    NoPosition object. *)
Lemma empty_ladder_counterexample :
  ~ empty_ladder_as_stated noLevels /\ App.analysis noLevels = None.
Proof.
  split; [| reflexivity].
  intro H. destruct (H ltac:(discriminate)) as [_ Ha]. discriminate.
Qed.

(** C6 (amended): for levelCount <= 0 the ladder is empty and [analysis]
    returns [null], no snapshot at all; this is a value, not an error, and it
    is distinct from the NoPosition object returned when a non-empty ladder
    has no triggered level. *)
Theorem empty_ladder (P : Params) :
  (levels P <= 0)%Z ->
  App.table P = [] /\ App.analysis P = None /\
  App.analysis P <> Some (App.NoPosition 0 true).
Proof.
  intro H. pose proof (table_empty P H) as Ht.
  split; trivial. rewrite (analysis_null P Ht). split; [reflexivity | discriminate].
Qed.

Lemma empty_ladder_witness :
  App.table noLevels = [] /\ App.analysis noLevels = None /\
  App.analysis noLevels <> Some (App.NoPosition 0 true).
Proof.
  apply (empty_ladder noLevels). discriminate.
Defined.

(** * Monotonicity of the trigger count *)

(** C7: on a fixed ladder, lowering the reference price never lowers the
    number of triggered levels; the same holds for the count [analysis]
    reports when only currentPrice changes. *)
Theorem numTriggered_monotone (tbl : list Row.t) (P : Params) (p1 p2 : Q) :
  p2 <= p1 ->
  (length (App.triggeredAt tbl p1) <= length (App.triggeredAt tbl p2))%nat /\
  (length (App.triggeredLevels (atPrice P p1))
   <= length (App.triggeredLevels (atPrice P p2)))%nat.
Proof.
  intro H.
  assert (G : forall t, (length (App.triggeredAt t p1)
                         <= length (App.triggeredAt t p2))%nat).
  { intro t. unfold App.triggeredAt. apply filter_length_le.
    intros r Hr. apply Qle_bool_iff. apply Qle_bool_iff in Hr.
    apply Qle_trans with (y := p1); trivial. }
  split; [apply G |].
  rewrite !numTriggered_atPrice. apply G.
Qed.

Lemma numTriggered_monotone_witness :
  (length (App.triggeredAt (App.table defaults) 2600)
   <= length (App.triggeredAt (App.table defaults) 2590))%nat /\
  (length (App.triggeredLevels (atPrice defaults 2600))
   <= length (App.triggeredLevels (atPrice defaults 2590)))%nat.
Proof.
  apply (numTriggered_monotone (App.table defaults) defaults 2600 2590).
  discriminate.
Defined.

Example numTriggered_defaults :
  length (App.triggeredAt (App.table defaults) 2600) = 11%nat /\
  length (App.triggeredAt (App.table defaults) 2590) = 13%nat.
Proof. split; reflexivity. Qed.

(** * Margin percentage *)

(** C4, as stated, fails: with balance = 0.5 the divisor is 0.5, not
    max(0.5, 1) = 1; usedMargin is 143 and marginPercent is 28600, where the
    stated formula gives 14300. *)
Lemma margin_percent_counterexample :
  ~ margin_percent_as_stated halfBalance /\
  exists s, App.analysis halfBalance = Some (App.Position s) /\
    App.usedMargin s == 143 /\
    App.marginPercent s == 28600 /\
    (App.usedMargin s / Qmax (balanceUSC halfBalance) 1) * 100 == 14300.
Proof.
  assert (Hn : App.triggeredLevels halfBalance <> [])
    by (vm_compute; discriminate).
  destruct (analysis_position halfBalance Hn) as [s [Hs [_ [Hu [Hm _]]]]].
  assert (Eu : App.usedMargin s == 143) by (rewrite Hu; vm_compute; reflexivity).
  assert (Em : App.marginPercent s == 28600)
    by (rewrite Hm, Hu; vm_compute; reflexivity).
  split.
  - intro H. destruct (H Hn) as [s' [Hs' Hm']].
    rewrite Hs in Hs'. injection Hs' as <-.
    rewrite Hm, Hu in Hm'. vm_compute in Hm'. discriminate Hm'.
  - exists s. split; [exact Hs |]. split; [exact Eu |]. split; [exact Em |].
    rewrite Hu. vm_compute. reflexivity.
Qed.

Lemma orElse_nonzero (a : Q) : ~ orElse a 1 == 0.
Proof.
  unfold orElse. destruct (Qeq_bool a 0) eqn:E.
  - discriminate.
  - intro H. apply Qeq_bool_iff in H. congruence.
Qed.

(** C4 (amended): with a triggered level, marginPercent is usedMargin divided
    by [balance || 1], times 100, rounded to two decimals: the divisor is 1
    when balance is 0 and is balance itself otherwise (it is max(balance, 1)
    exactly when balance = 0 or balance >= 1), so the divisor is never 0. *)
Theorem margin_percent (P : Params) :
  App.triggeredLevels P <> [] ->
  exists s, App.analysis P = Some (App.Position s) /\
    App.marginPercent s =
      toFixed ((App.usedMargin s / orElse (balanceUSC P) 1) * 100) 2 /\
    ~ orElse (balanceUSC P) 1 == 0 /\
    (balanceUSC P == 0 -> orElse (balanceUSC P) 1 = 1) /\
    (~ balanceUSC P == 0 -> orElse (balanceUSC P) 1 = balanceUSC P) /\
    (balanceUSC P == 0 \/ 1 <= balanceUSC P ->
     orElse (balanceUSC P) 1 == Qmax (balanceUSC P) 1).
Proof.
  intro H. destruct (analysis_position P H) as [s [Hs [_ [_ [Hm _]]]]].
  exists s. split; trivial. split; trivial.
  split; [apply orElse_nonzero |].
  unfold orElse. destruct (Qeq_bool (balanceUSC P) 0) eqn:E.
  - apply Qeq_bool_iff in E. repeat split.
    + intro N. contradiction.
    + intros _. rewrite Q.max_r; [reflexivity | lra].
  - assert (N : ~ balanceUSC P == 0)
      by (intro N; apply Qeq_bool_iff in N; congruence).
    repeat split.
    + intro Z. contradiction.
    + intros [Z | G]; [contradiction |]. rewrite Q.max_l; [reflexivity | lra].
Qed.

Lemma margin_percent_witness :
  exists s, App.analysis defaults = Some (App.Position s) /\
    App.marginPercent s =
      toFixed ((App.usedMargin s / orElse (balanceUSC defaults) 1) * 100) 2 /\
    ~ orElse (balanceUSC defaults) 1 == 0 /\
    (balanceUSC defaults == 0 -> orElse (balanceUSC defaults) 1 = 1) /\
    (~ balanceUSC defaults == 0 ->
     orElse (balanceUSC defaults) 1 = balanceUSC defaults) /\
    (balanceUSC defaults == 0 \/ 1 <= balanceUSC defaults ->
     orElse (balanceUSC defaults) 1 == Qmax (balanceUSC defaults) 1).
Proof.
  apply (margin_percent defaults). vm_compute. discriminate.
Defined.

(** The one-level sample with a zero balance: the divisor is 1 and
    marginPercent is usedMargin x 100. *)
Example margin_percent_zero_balance :
  let P := {| gridStartPrice := 7; currentPrice := 7; step := 1; lotSize := 1;
              levels := 1; tp := 1; balanceUSC := 0; leverage := 100;
              contractSize := 1 |} in
  exists s, App.analysis P = Some (App.Position s) /\
            App.usedMargin s == 7 /\ App.marginPercent s == 700.
Proof.
  eexists. split; [vm_compute; reflexivity |]. split; reflexivity.
Qed.

(** * Risk tier *)

Lemma riskOf_tiers (mp : Q) :
  (fst (App.riskOf mp) = "EXTREME"%string <-> 70 < mp) /\
  (fst (App.riskOf mp) = "HIGH"%string <-> 50 < mp /\ mp <= 70) /\
  (fst (App.riskOf mp) = "MODERATE"%string <-> 30 < mp /\ mp <= 50) /\
  (fst (App.riskOf mp) = "LOW"%string <-> mp <= 30).
Proof.
  unfold App.riskOf, Qgt_bool.
  destruct (Qlt_bool 70 mp) eqn:E70;
    [apply Qlt_bool_iff in E70 | apply Qlt_bool_false in E70];
  (destruct (Qlt_bool 50 mp) eqn:E50;
    [apply Qlt_bool_iff in E50 | apply Qlt_bool_false in E50]);
  (destruct (Qlt_bool 30 mp) eqn:E30;
    [apply Qlt_bool_iff in E30 | apply Qlt_bool_false in E30]);
  cbn [fst]; repeat split; intros; try discriminate; try lra;
  match goal with H : _ /\ _ |- _ => destruct H; lra end.
Qed.

(** C5: for every snapshot with a position the tier is EXTREME iff
    marginPercent > 70, HIGH iff 50 < marginPercent <= 70, MODERATE iff
    30 < marginPercent <= 50 and LOW otherwise; exactly 70 is HIGH. *)
Theorem risk_tier (P : Params) (s : App.Snapshot) :
  App.analysis P = Some (App.Position s) ->
  (App.riskLevel s = "EXTREME"%string <-> 70 < App.marginPercent s) /\
  (App.riskLevel s = "HIGH"%string <->
     50 < App.marginPercent s /\ App.marginPercent s <= 70) /\
  (App.riskLevel s = "MODERATE"%string <->
     30 < App.marginPercent s /\ App.marginPercent s <= 50) /\
  (App.riskLevel s = "LOW"%string <-> App.marginPercent s <= 30) /\
  (App.marginPercent s == 70 -> App.riskLevel s = "HIGH"%string).
Proof.
  intro H. pose proof (analysis_position_inv P s H) as Hn.
  destruct (analysis_position P Hn) as [s' [Hs' [_ [_ [_ [_ [_ [Hr _]]]]]]]].
  rewrite H in Hs'. injection Hs' as <-.
  rewrite Hr.
  destruct (riskOf_tiers (App.marginPercent s)) as [H1 [H2 [H3 H4]]].
  split; [exact H1 |]. split; [exact H2 |]. split; [exact H3 |].
  split; [exact H4 |].
  intro E. apply H2. lra.
Qed.

Lemma risk_tier_witness :
  exists s, App.analysis seventy = Some (App.Position s) /\
            App.marginPercent s == 70 /\
            App.riskLevel s = "HIGH"%string.
Proof.
  assert (H : exists s, App.analysis seventy = Some (App.Position s) /\
                        App.marginPercent s == 70)
    by (eexists; split; [vm_compute; reflexivity | reflexivity]).
  destruct H as [s [Hs Hm]]. exists s. split; trivial. split; trivial.
  apply (risk_tier seventy s Hs). exact Hm.
Defined.

(** * Weighted average entry *)

Section AverageEntry.

Variable P : Params.

Lemma lastRow_prefix (k : nat) :
  lastRow (map (App.tableRow P) (seq 0 (S k))) = App.tableRow P k.
Proof.
  unfold lastRow. rewrite seq_S, map_app. simpl. apply last_last.
Qed.

Lemma index_pos (i : nat) : 0 < inject_Z (Z.of_nat i) + 1.
Proof.
  assert (H : 0 <= inject_Z (Z.of_nat i)).
  { change 0 with (inject_Z 0). rewrite <- Zle_Qle. lia. }
  lra.
Qed.

(** The lot size is rounded to four decimals first, so the cumulative lots
    of row [i] are exactly [i + 1] lots. *)
Lemma cumulativeLots_exact (i : nat) :
  Row.cumulativeLots (App.tableRow P i)
  == toFixed (lotSize P) 4 * (inject_Z (Z.of_nat i) + 1).
Proof.
  cbn [Row.cumulativeLots App.tableRow].
  set (l := toFixed (lotSize P) 4). set (m := inject_Z (Z.of_nat i) + 1).
  assert (Hm : m == inject_Z (Z.of_nat i + 1)).
  { unfold m. rewrite inject_Z_plus. reflexivity. }
  destruct (toFixed_decimal (lotSize P) 4) as [z [[B E] | E]]; fold l in E.
  - destruct (toFixed_cases (l * m) 4) as [[_ E'] | [S' _]].
    + rewrite E'. reflexivity.
    + exfalso. rewrite Qabs_Qmult, E in S'.
      assert (H1 : 1 <= Qabs m).
      { apply Qle_trans with (y := m); [| apply Qle_Qabs].
        pose proof (index_pos i). unfold m.
        assert (H0 : 0 <= inject_Z (Z.of_nat i)).
        { change 0 with (inject_Z 0). rewrite <- Zle_Qle. lia. }
        lra. }
      assert (Hb : 0 < big) by reflexivity.
      nra.
  - apply toFixed_exact with (z := (z * (Z.of_nat i + 1))%Z).
    rewrite inject_Z_mult, <- Hm, <- E. ring.
Qed.




End AverageEntry.





Example avg_entry_defaults : App.avgEntry defaults == 2625.
Proof. reflexivity. Qed.

(** * The margin-call search *)

Section Search.

Variable P : Params.


Lemma marginCallStep_eq (s : Search) :
  App.marginCallStep P s =
  let mid := (low s + high s) / 2 in
  if stopOut P mid then {| low := mid; high := high s; hit := mid |}
  else {| low := low s; high := mid; hit := hit s |}.
Proof.
  unfold App.marginCallStep, stopOut. cbv zeta.
  destruct (length (App.triggeredAt (App.table P) ((low s + high s) / 2)) =? 0)%nat;
    simpl; trivial.
Qed.

Lemma pow2_S (n : nat) : pow2 (S n) == 2 * pow2 n.
Proof.
  unfold pow2. rewrite Nat2Z.inj_succ, Z.pow_succ_r by lia.
  rewrite inject_Z_mult. reflexivity.
Qed.

Lemma pow2_pos (n : nat) : 0 < pow2 n.
Proof.
  unfold pow2. change 0 with (inject_Z 0). rewrite <- Zlt_Qlt. lia.
Qed.

Lemma searchInv_init :
  searchInv P 0 {| low := 0; high := currentPrice P; hit := 0 |}.
Proof.
  unfold searchInv. cbn [low high hit].
  split; [reflexivity |]. split; [unfold pow2; simpl; ring |].
  split; [left; reflexivity |]. split; [left; reflexivity |].
  intro H. split; lra.
Qed.

Lemma searchInv_step (n : nat) (s : Search) :
  searchInv P n s -> searchInv P (S n) (App.marginCallStep P s).
Proof.
  intros [H1 [H2 [H3 [H4 H5]]]].
  rewrite marginCallStep_eq. cbv zeta.
  pose proof (pow2_pos n) as Hp. pose proof (pow2_S n) as HS.
  set (mid := (low s + high s) / 2).
  assert (Hmid : mid == (low s + high s) * (1 # 2)) by (unfold mid; field).
  assert (Horder : 0 <= currentPrice P -> low s <= high s) by (intro; nra).
  destruct (stopOut P mid) eqn:E; unfold searchInv; cbn [low high hit].
  - split; [reflexivity |]. split; [rewrite HS, Hmid; nra |].
    split; [right; trivial |]. split; [trivial |].
    intro Hc. destruct (H5 Hc). specialize (Horder Hc). split; lra.
  - split; [trivial |]. split; [rewrite HS, Hmid; nra |].
    split; [trivial |]. split; [right; trivial |].
    intro Hc. destruct (H5 Hc). specialize (Horder Hc). split; lra.
Qed.

Lemma searchInv_iterate (n m : nat) (s : Search) :
  searchInv P m s -> searchInv P (m + n) (iterate n (App.marginCallStep P) s).
Proof.
  revert m s. induction n as [| n IH]; intros m s H.
  - rewrite Nat.add_0_r. exact H.
  - cbn [iterate]. rewrite <- Nat.add_succ_comm.
    apply IH, searchInv_step, H.
Qed.

Lemma searchInv_final : searchInv P 20 (App.marginCallSearch P).
Proof.
  apply (searchInv_iterate 20 0), searchInv_init.
Qed.


End Search.

(** ** When the stop-out test is monotone

    The search relies on the test being monotone in price.  It is, for a
    non-negative step, a lot size that is not rounded to zero, ounces that
    grow by the same non-negative amount per level, and leverage of at least
    one half. *)

Section Monotone.

Variable P : Params.
Variable c : Q.
Hypothesis step_nonneg : 0 <= step P.
Hypothesis lots_nonzero : ~ toFixed (lotSize P) 4 == 0.
Hypothesis ounces : proportionalOunces P c = true.
Hypothesis c_nonneg : 0 <= c.
Hypothesis leverage_half : (1 # 2) <= leverage P.

Lemma ounces_row (i : nat) :
  (i < Z.to_nat (levels P))%nat ->
  Row.totalOunces (App.tableRow P i) == c * (inject_Z (Z.of_nat i) + 1).
Proof.
  intro Hi. unfold proportionalOunces in ounces.
  rewrite forallb_forall in ounces.
  apply Qeq_bool_iff, ounces, in_seq. lia.
Qed.

Lemma weighted_prefix (k : nat) :
  fold_left (fun s r => s + Row.levelPrice r * Row.lotsAtThisLevel r)
            (map (App.tableRow P) (seq 0 k)) 0
  == toFixed (lotSize P) 4 * priceSum P k.
Proof.
  induction k as [| k IH].
  - simpl. ring.
  - rewrite seq_S, map_app, fold_left_app. cbn [map fold_left Nat.add priceSum].
    rewrite IH. cbn [Row.lotsAtThisLevel App.tableRow]. ring.
Qed.

Lemma equityAt_prefix (p : Q) (k : nat) :
  (k < Z.to_nat (levels P))%nat ->
  App.triggeredAt (App.table P) p = map (App.tableRow P) (seq 0 (S k)) ->
  App.equityAt P p ==
  balanceUSC P
  + 100 * c * ((inject_Z (Z.of_nat k) + 1) * p - priceSum P (S k)).
Proof.
  intros Hk Hf. unfold App.equityAt. cbv zeta. rewrite Hf, lastRow_prefix.
  unfold App.entryOver.
  rewrite weighted_prefix, cumulativeLots_exact, (ounces_row k Hk).
  pose proof (index_pos k) as Hpos.
  field. split; [lra | exact lots_nonzero].
Qed.


Lemma priceSum_diff (p : Q) (kq kp : nat) :
  (kq <= kp)%nat ->
  (forall i, (kq <= i < kp)%nat -> p <= Row.levelPrice (App.tableRow P i)) ->
  (inject_Z (Z.of_nat kp) - inject_Z (Z.of_nat kq)) * p
  <= priceSum P kp - priceSum P kq.
Proof.
  intros Hle. induction Hle as [| kp Hle IH]; intro H.
  - ring_simplify. lra.
  - cbn [priceSum]. rewrite Nat2Z.inj_succ. unfold Z.succ.
    rewrite inject_Z_plus. change (inject_Z 1) with 1.
    assert (H1 : p <= Row.levelPrice (App.tableRow P kp)) by (apply H; lia).
    assert (H2 : (inject_Z (Z.of_nat kp) - inject_Z (Z.of_nat kq)) * p
                 <= priceSum P kp - priceSum P kq)
      by (apply IH; intros i Hi; apply H; lia).
    lra.
Qed.





End Monotone.









Example margin_call_defaults : App.findMarginCallPrice defaults == 255314 # 100.
Proof. vm_compute. reflexivity. Qed.

(** * The equity curve *)

Section Curve.

Variable P : Params.
Variable m : Q.







End Curve.




(** * The two entry points *)

Section Agreement.

Variable P : Params.

Lemma table_agree : Part000.table P = App.table P.
Proof. reflexivity. Qed.

Lemma triggeredLevels_agree : Part000.triggeredLevels P = App.triggeredLevels P.
Proof. reflexivity. Qed.

Lemma simulateDrop_agree (d : Q) : Part000.simulateDrop P d = App.simulateDrop P d.
Proof. reflexivity. Qed.

Lemma marginCallStep_agree (s : Search) :
  Part000.marginCallStep P s = App.marginCallStep P s.
Proof. reflexivity. Qed.

Lemma iterate_ext {A : Type} (f g : A -> A) :
  (forall x, f x = g x) -> forall n x, iterate n f x = iterate n g x.
Proof.
  intros H n. induction n as [| n IH]; intro x; simpl; trivial.
  rewrite H. apply IH.
Qed.

Lemma findMarginCallPrice_agree :
  Part000.findMarginCallPrice P = App.findMarginCallPrice P.
Proof.
  unfold Part000.findMarginCallPrice, App.findMarginCallPrice,
    Part000.marginCallSearch, App.marginCallSearch.
  rewrite (iterate_ext _ _ marginCallStep_agree). reflexivity.
Qed.

Lemma equityCurve_agree (m : Q) : Part000.equityCurve P m = App.equityCurve P m.
Proof. reflexivity. Qed.

Lemma riskOf_agree (mp : Q) : Part000.riskOf mp = App.riskOf mp.
Proof. reflexivity. Qed.

End Agreement.

(** C10: on the same inputs the two files build the same ladder, and their
    [analysis] results agree: both [null], both the NoPosition object, or two
    snapshots equal in every field they share. *)
Theorem entry_points_agree (P : Params) :
  Part000.table P = App.table P /\
  results_agree (App.analysis P) (Part000.analysis P).
Proof.
  split; [apply table_agree |].
  unfold App.analysis, Part000.analysis.
  change (Part000.table P) with (App.table P).
  change (Part000.triggeredLevels P) with (App.triggeredLevels P).
  destruct (length (App.table P) =? 0)%nat; [exact I |].
  destruct (length (App.triggeredLevels P) =? 0)%nat; [split; reflexivity |].
  cbv zeta. unfold results_agree, snapshots_agree.
  cbn [App.numTriggered App.totalLots App.totalOunces App.usedMargin
       App.notionalUSC App.marginPercent App.totalPotentialProfit
       App.avgEntryFixed App.currentFloatingPL App.breakEvenPrice
       App.profitTargetPrice App.drop10 App.drop25 App.drop50 App.drop100
       App.marginCallPrice App.maxSafeDrop App.riskLevel App.riskColor
       App.lowestTriggered App.currentEquity App.noPositions
       App.equityCurveData
       Part000.numTriggered Part000.totalLots Part000.totalOunces
       Part000.usedMargin Part000.notionalUSC Part000.marginPercent
       Part000.totalPotentialProfit Part000.avgEntryFixed
       Part000.currentFloatingPL Part000.breakEvenPrice
       Part000.profitTargetPrice Part000.drop10 Part000.drop25
       Part000.drop50 Part000.drop100 Part000.marginCallPrice
       Part000.maxSafeDrop Part000.riskLevel Part000.riskColor
       Part000.lowestTriggered Part000.currentEquity Part000.noPositions
       Part000.equityCurveData].
  pose proof (findMarginCallPrice_agree P) as E.
  set (mA := App.findMarginCallPrice P) in *.
  set (mB := Part000.findMarginCallPrice P) in *.
  clearbody mA mB. subst mB.
  repeat split.
Qed.

Example dd50Price_defaults :
  Part000.findPriceForEquity defaults (balanceUSC defaults * (50 # 100))
  == 258179 # 100.
Proof. vm_compute. reflexivity. Qed.

(** * Further properties of the engine *)

Section Position.

Variable P : Params.

(** The remaining fields of the snapshot. *)
Lemma analysis_position_fields :
  App.triggeredLevels P <> [] ->
  exists s, App.analysis P = Some (App.Position s) /\
    App.numTriggered s = length (App.triggeredLevels P) /\
    App.totalLots s = Row.cumulativeLots (App.lastTriggered P) /\
    App.totalOunces s = Row.totalOunces (App.lastTriggered P) /\
    App.lowestTriggered s = Row.levelPrice (App.lastTriggered P) /\
    App.totalPotentialProfit s =
      toFixed (Row.cumulativeLots (App.lastTriggered P)
               * toFixed ((tp P * contractSize P) * 100) 2) 2 /\
    App.currentFloatingPL s =
      toFixed ((currentPrice P - App.avgEntry P)
               * Row.totalOunces (App.lastTriggered P) * 100) 2 /\
    App.currentEquity s = toFixed (balanceUSC P + App.currentFloatingPL s) 2 /\
    App.marginCallPrice s = App.findMarginCallPrice P /\
    App.maxSafeDrop s = toFixed (currentPrice P - App.findMarginCallPrice P) 2 /\
    App.drop10 s = App.simulateDrop P 10 /\
    App.drop25 s = App.simulateDrop P 25 /\
    App.drop50 s = App.simulateDrop P 50 /\
    App.drop100 s = App.simulateDrop P 100 /\
    App.riskLevel s = fst (App.riskOf (App.marginPercent s)) /\
    App.riskColor s = snd (App.riskOf (App.marginPercent s)) /\
    App.equityCurveData s = App.equityCurve P (App.findMarginCallPrice P).
Proof.
  intro H. pose proof (triggered_in_table P H) as Ht.
  unfold App.analysis.
  destruct (App.table P) as [| r0 tbl]; [congruence |].
  destruct (App.triggeredLevels P) as [| t0 trig] eqn:E; [congruence |].
  cbn [length Nat.eqb].
  eexists. split; [reflexivity |].
  cbn [App.numTriggered App.totalLots App.totalOunces App.lowestTriggered
       App.totalPotentialProfit App.currentFloatingPL App.currentEquity
       App.marginCallPrice App.maxSafeDrop App.drop10 App.drop25 App.drop50
       App.drop100 App.riskLevel App.riskColor App.equityCurveData].
  repeat split.
Qed.

Lemma snapshot_unique (s s' : App.Snapshot) :
  App.analysis P = Some (App.Position s) ->
  App.analysis P = Some (App.Position s') -> s = s'.
Proof. intros H H'. rewrite H in H'. injection H' as <-. reflexivity. Qed.

Lemma lastRow_in (l : list Row.t) : l <> [] -> In (lastRow l) l.
Proof.
  unfold lastRow. induction l as [| a l IH]; [congruence |].
  intros _. destruct l as [| b l]; [left; reflexivity |].
  right. apply IH. discriminate.
Qed.

Lemma triggered_row (r : Row.t) :
  In r (App.triggeredLevels P) ->
  exists i, (i < Z.to_nat (levels P))%nat /\ r = App.tableRow P i /\
            currentPrice P <= Row.levelPrice r.
Proof.
  intro H. rewrite triggeredLevels_at in H. unfold App.triggeredAt in H.
  apply filter_In in H. destruct H as [Hin Hle].
  apply In_nth_error in Hin. destruct Hin as [i Hi].
  apply table_nth in Hi. destruct Hi as [Hi ->].
  exists i. split; [exact Hi |]. split; [reflexivity |].
  apply Qle_bool_iff. exact Hle.
Qed.

Lemma triggered_prefix :
  0 <= step P -> App.triggeredLevels P <> [] ->
  exists k, (S k <= Z.to_nat (levels P))%nat /\
    App.triggeredLevels P = map (App.tableRow P) (seq 0 (S k)) /\
    App.lastTriggered P = App.tableRow P k.
Proof.
  intros Hs Hn.
  destruct (triggeredAt_prefix P (currentPrice P) Hs) as [k [Hk [Hf _]]].
  rewrite <- triggeredLevels_at in Hf.
  destruct k as [| k]; [rewrite Hf in Hn; simpl in Hn; congruence |].
  exists k. split; [exact Hk |]. split; [exact Hf |].
  unfold App.lastTriggered. rewrite Hf. apply lastRow_prefix.
Qed.

End Position.

(** X1: on a descending ladder (step >= 0) the snapshot counts between 1 and
    levelCount triggered levels, and its totalLots is exactly the rounded lot
    size times that count. *)
Theorem position_size (P : Params) (s : App.Snapshot) :
  0 <= step P -> App.analysis P = Some (App.Position s) ->
  (1 <= App.numTriggered s)%nat /\
  (Z.of_nat (App.numTriggered s) <= levels P)%Z /\
  App.totalLots s
  == toFixed (lotSize P) 4 * inject_Z (Z.of_nat (App.numTriggered s)).
Proof.
  intros Hs Ha. pose proof (analysis_position_inv P s Ha) as Hn.
  destruct (analysis_position_fields P Hn) as [s' [Ha' [Hnum [Hlots _]]]].
  rewrite (snapshot_unique P s s' Ha Ha'). clear Ha Ha'.
  destruct (triggered_prefix P Hs Hn) as [k [Hk [Hf Hlast]]].
  rewrite Hnum, Hlots, Hf, Hlast, length_map, length_seq.
  split; [lia |]. split; [lia |].
  rewrite cumulativeLots_exact, Nat2Z.inj_succ. unfold Z.succ.
  rewrite inject_Z_plus. reflexivity.
Qed.

Lemma position_size_witness :
  exists s, App.analysis defaults = Some (App.Position s) /\
    App.numTriggered s = 11%nat /\
    App.totalLots s
    == toFixed (lotSize defaults) 4 * inject_Z (Z.of_nat (App.numTriggered s)).
Proof.
  assert (Hn : App.triggeredLevels defaults <> []) by (vm_compute; discriminate).
  destruct (analysis_position_fields defaults Hn) as [s [Ha [Hnum _]]].
  exists s. split; [exact Ha |]. split; [rewrite Hnum; reflexivity |].
  apply (position_size defaults s); [discriminate | exact Ha].
Defined.

(** X2: with a position open, the reported lowestTriggered is the price of a
    triggered level and is never below the current price; on a descending
    ladder it is the lowest of the triggered prices. *)
Theorem lowest_triggered (P : Params) (s : App.Snapshot) :
  App.analysis P = Some (App.Position s) ->
  In (App.lowestTriggered s) (map Row.levelPrice (App.triggeredLevels P)) /\
  currentPrice P <= App.lowestTriggered s /\
  (0 <= step P ->
   forall r, In r (App.triggeredLevels P) ->
             App.lowestTriggered s <= Row.levelPrice r).
Proof.
  intro Ha. pose proof (analysis_position_inv P s Ha) as Hn.
  destruct (analysis_position_fields P Hn) as [s' [Ha' [_ [_ [_ [Hlow _]]]]]].
  rewrite (snapshot_unique P s s' Ha Ha'). clear Ha Ha'. rewrite Hlow.
  assert (Hin : In (App.lastTriggered P) (App.triggeredLevels P))
    by (apply lastRow_in; exact Hn).
  split; [apply in_map; exact Hin |]. split.
  - destruct (triggered_row P _ Hin) as [i [_ [_ Hle]]]. exact Hle.
  - intros Hs r Hr.
    destruct (triggered_prefix P Hs Hn) as [k [Hk [Hf Hlast]]].
    rewrite Hf in Hr. apply in_map_iff in Hr. destruct Hr as [i [<- Hi]].
    apply in_seq in Hi. rewrite Hlast. apply levelPrice_le; [exact Hs | lia].
Qed.

Lemma lowest_triggered_witness :
  exists s, App.analysis defaults = Some (App.Position s) /\
            currentPrice defaults <= App.lowestTriggered s.
Proof.
  assert (Hn : App.triggeredLevels defaults <> []) by (vm_compute; discriminate).
  destruct (analysis_position_fields defaults Hn) as [s [Ha _]].
  exists s. split; [exact Ha |].
  exact (proj1 (proj2 (lowest_triggered defaults s Ha))).
Defined.



Lemma toFixed_zero (d : nat) : toFixed 0 d == 0.
Proof. apply toFixed_exact with (z := 0%Z). ring. Qed.

Lemma toFixed_nonneg (x : Q) : - (1 # 200) < x -> 0 <= toFixed x 2.
Proof.
  intro H. destruct (Qlt_le_dec x 0) as [Hneg | Hpos].
  - apply (Qmult_le_r _ _ (scale 2) (scale_pos 2)).
    destruct (toFixed_cases x 2) as [[B E] | [_ E]].
    + exfalso. rewrite (Qabs_neg x) in B by lra.
      assert (Hb : 1 <= big) by (vm_compute; discriminate). lra.
    + rewrite E, Qmake_scaled. change (scale 2) with 100.
      assert (Hr : (-1 < roundHalfAway (x * 100))%Z).
      { rewrite Zlt_Qlt.
        pose proof (roundHalfAway_bounds (x * 100)) as Hb.
        change (inject_Z (-1)) with (- (1)). lra. }
      assert (Hz : (0 <= roundHalfAway (x * 100))%Z) by lia.
      rewrite Zle_Qle in Hz. change (inject_Z 0) with 0 in Hz. lra.
  - rewrite <- (toFixed_zero 2). apply toFixed_mono. exact Hpos.
Qed.

Lemma search_range (P : Params) (st : Search) :
  searchInv P 20 st -> 0 <= currentPrice P ->
  0 <= toFixed (hit st) 2 <= toFixed (currentPrice P) 2 /\
  0 <= toFixed (currentPrice P - toFixed (hit st) 2) 2.
Proof.
  intros [H1 [H2 [_ [_ H5]]]] Hc. destruct (H5 Hc) as [Hlo Hhi].
  pose proof (pow2_pos 20) as Hp.
  destruct st as [lo hi r]. cbn [low high hit] in *. subst r.
  assert (Hup : toFixed lo 2 <= lo + (1 # 200)) by apply toFixed_error2.
  split; [split |].
  - rewrite <- (toFixed_zero 2). apply toFixed_mono. exact Hlo.
  - apply toFixed_mono. nra.
  - apply toFixed_nonneg.
    destruct (Qlt_le_dec 0 (currentPrice P)) as [Hpos | Hzero].
    + assert (lo < hi) by nra. lra.
    + assert (E : currentPrice P == 0) by lra.
      assert (E0 : lo == 0) by nra.
      rewrite E, (toFixed_comp _ _ 2 E0), toFixed_zero. reflexivity.
Qed.

(** X4: with a non-negative current price the margin-call price lies between
    0 and the current price rounded to cents, and maxSafeDrop is never
    negative. *)
Theorem margin_call_price_range (P : Params) (s : App.Snapshot) :
  0 <= currentPrice P -> App.analysis P = Some (App.Position s) ->
  0 <= App.marginCallPrice s <= toFixed (currentPrice P) 2 /\
  0 <= App.maxSafeDrop s.
Proof.
  intros Hc Ha. pose proof (analysis_position_inv P s Ha) as Hn.
  destruct (analysis_position_fields P Hn)
    as [s' [Ha' [_ [_ [_ [_ [_ [_ [_ [Hm [Hd _]]]]]]]]]]].
  rewrite (snapshot_unique P s s' Ha Ha'). clear Ha Ha'. rewrite Hm, Hd.
  exact (search_range P _ (searchInv_final P) Hc).
Qed.

Lemma margin_call_price_range_witness :
  exists s, App.analysis defaults = Some (App.Position s) /\
    0 <= App.marginCallPrice s <= toFixed (currentPrice defaults) 2 /\
    0 <= App.maxSafeDrop s.
Proof.
  assert (Hn : App.triggeredLevels defaults <> []) by (vm_compute; discriminate).
  destruct (analysis_position_fields defaults Hn) as [s [Ha _]].
  exists s. split; [exact Ha |].
  apply (margin_call_price_range defaults s); [| exact Ha].
  vm_compute. discriminate.
Defined.

(** ** Floating loss and the drop scenarios *)

Lemma triggeredAt_comp (tbl : list Row.t) (p q : Q) :
  p == q -> App.triggeredAt tbl p = App.triggeredAt tbl q.
Proof.
  intro H. unfold App.triggeredAt. apply filter_ext. intro r.
  rewrite H. reflexivity.
Qed.

Lemma floatingAt_comp (P : Params) (p q : Q) :
  p == q -> floatingAt P p == floatingAt P q.
Proof.
  intro H. unfold floatingAt. cbv zeta.
  rewrite (triggeredAt_comp _ p q H), H. reflexivity.
Qed.

Lemma equityAt_floating (P : Params) (p : Q) :
  App.equityAt P p = balanceUSC P + floatingAt P p.
Proof. reflexivity. Qed.

Lemma simulateDrop_eq (P : Params) (d : Q) :
  App.simulateDrop P d =
  if (length (App.triggeredAt (App.table P) (currentPrice P - d)) =? 0)%nat
  then 0 else toFixed (floatingAt P (currentPrice P - d)) 2.
Proof. reflexivity. Qed.

Lemma currentFloatingPL_eq (P : Params) :
  (currentPrice P - App.avgEntry P)
  * Row.totalOunces (App.lastTriggered P) * 100
  = floatingAt P (currentPrice P).
Proof.
  unfold floatingAt, App.avgEntry, App.lastTriggered. cbv zeta.
  rewrite triggeredLevels_at. reflexivity.
Qed.

Section Exposure.

Variable P : Params.
Variable c : Q.
Hypothesis step_nonneg : 0 <= step P.
Hypothesis lots_nonzero : ~ toFixed (lotSize P) 4 == 0.
Hypothesis ounces : proportionalOunces P c = true.
Hypothesis c_nonneg : 0 <= c.

Lemma floatingAt_prefix (p : Q) (k : nat) :
  (k < Z.to_nat (levels P))%nat ->
  App.triggeredAt (App.table P) p = map (App.tableRow P) (seq 0 (S k)) ->
  floatingAt P p
  == 100 * c * ((inject_Z (Z.of_nat k) + 1) * p - priceSum P (S k)).
Proof.
  intros Hk Hf.
  pose proof (equityAt_prefix P c lots_nonzero ounces p k Hk Hf) as H.
  rewrite equityAt_floating in H. lra.
Qed.

Lemma triggered_member (p : Q) (k i : nat) :
  App.triggeredAt (App.table P) p = map (App.tableRow P) (seq 0 k) ->
  (i < k)%nat -> p <= Row.levelPrice (App.tableRow P i).
Proof.
  intros Hf Hi.
  assert (Hm : In (App.tableRow P i) (App.triggeredAt (App.table P) p)).
  { rewrite Hf. apply in_map, in_seq. lia. }
  unfold App.triggeredAt in Hm. apply filter_In in Hm.
  apply Qle_bool_iff. exact (proj2 Hm).
Qed.

Lemma nonempty_prefix (p : Q) :
  App.triggeredAt (App.table P) p <> [] ->
  exists k, (k < Z.to_nat (levels P))%nat /\
    App.triggeredAt (App.table P) p = map (App.tableRow P) (seq 0 (S k)) /\
    forall i, (S k <= i < Z.to_nat (levels P))%nat ->
              Row.levelPrice (App.tableRow P i) < p.
Proof.
  intro Hn.
  destruct (triggeredAt_prefix P p step_nonneg) as [k [Hk [Hf Hr]]].
  destruct k as [| k]; [rewrite Hf in Hn; simpl in Hn; congruence |].
  exists k. split; [lia |]. split; [exact Hf | exact Hr].
Qed.

Lemma priceSum_above (p : Q) (k : nat) :
  (forall i, (i < k)%nat -> p <= Row.levelPrice (App.tableRow P i)) ->
  inject_Z (Z.of_nat k) * p <= priceSum P k.
Proof.
  intro H.
  pose proof (priceSum_diff P p 0 k ltac:(lia)) as Hd.
  cbn [priceSum] in Hd. change (inject_Z (Z.of_nat 0)) with 0 in Hd.
  assert (Hd' : (inject_Z (Z.of_nat k) - 0) * p <= priceSum P k - 0).
  { apply Hd. intros i Hi. apply H. lia. }
  lra.
Qed.

(** A triggered position never floats a profit at its own probe price. *)
Lemma floatingAt_nonpos (p : Q) :
  App.triggeredAt (App.table P) p <> [] -> floatingAt P p <= 0.
Proof.
  intro Hn. destruct (nonempty_prefix p Hn) as [k [Hk [Hf _]]].
  rewrite (floatingAt_prefix p k Hk Hf).
  pose proof (priceSum_above p (S k)
                (fun i Hi => triggered_member p (S k) i Hf Hi)) as Hs.
  rewrite Nat2Z.inj_succ in Hs. unfold Z.succ in Hs.
  rewrite inject_Z_plus in Hs. change (inject_Z 1) with 1 in Hs.
  nra.
Qed.

(** The floating P/L falls with the probe price. *)
Lemma floatingAt_mono (p q : Q) :
  p <= q -> App.triggeredAt (App.table P) q <> [] ->
  App.triggeredAt (App.table P) p <> [] /\ floatingAt P p <= floatingAt P q.
Proof.
  intros Hpq Hnq.
  destruct (nonempty_prefix q Hnq) as [kq [Hkq [Hfq Hrq]]].
  assert (Hnp : App.triggeredAt (App.table P) p <> []).
  { intro E.
    assert (Hm : In (App.tableRow P 0) (App.triggeredAt (App.table P) p)).
    { unfold App.triggeredAt. apply filter_In. split.
      - unfold App.table. apply in_map, in_seq. lia.
      - apply Qle_bool_iff.
        apply Qle_trans with (y := q); [exact Hpq |].
        apply (triggered_member q (S kq) 0 Hfq). lia. }
    rewrite E in Hm. exact Hm. }
  split; [exact Hnp |].
  destruct (nonempty_prefix p Hnp) as [kp [Hkp [Hfp Hrp]]].
  assert (Hk : (S kq <= S kp)%nat).
  { destruct (Nat.le_gt_cases (S kq) (S kp)) as [H | H]; trivial. exfalso.
    pose proof (triggered_member q (S kq) (S kp) Hfq H) as H1.
    pose proof (Hrp (S kp) ltac:(lia)) as H2. lra. }
  rewrite (floatingAt_prefix p kp Hkp Hfp), (floatingAt_prefix q kq Hkq Hfq).
  pose proof (priceSum_diff P p (S kq) (S kp) Hk) as Hd.
  assert (Hd' : (inject_Z (Z.of_nat (S kp)) - inject_Z (Z.of_nat (S kq))) * p
                <= priceSum P (S kp) - priceSum P (S kq)).
  { apply Hd. intros i Hi. apply (triggered_member p (S kp) i Hfp). lia. }
  clear Hd. rewrite !Nat2Z.inj_succ in Hd'. unfold Z.succ in Hd'.
  rewrite !inject_Z_plus in Hd'. change (inject_Z 1) with 1 in Hd'.
  pose proof (index_pos kq) as Ha.
  set (a := inject_Z (Z.of_nat kq) + 1) in *.
  set (b := inject_Z (Z.of_nat kp) + 1) in *.
  set (Sq := priceSum P (S kq)) in *. set (Sp := priceSum P (S kp)) in *.
  assert (Hd : (b - a) * p <= Sp - Sq) by exact Hd'.
  clearbody a b Sq Sp.
  assert (A1 : a * p <= a * q) by nra.
  assert (A2 : b * p - Sp <= a * q - Sq) by lra.
  nra.
Qed.

Lemma simulateDrop_nonpos (d : Q) : App.simulateDrop P d <= 0.
Proof.
  rewrite simulateDrop_eq.
  destruct (App.triggeredAt (App.table P) (currentPrice P - d)) as [| r l] eqn:E.
  - simpl. lra.
  - cbn [length Nat.eqb]. rewrite <- (toFixed_zero 2). apply toFixed_mono.
    apply floatingAt_nonpos. rewrite E. discriminate.
Qed.

Lemma simulateDrop_mono (d1 d2 : Q) :
  d1 <= d2 -> App.simulateDrop P d2 <= App.simulateDrop P d1.
Proof.
  intro H. rewrite (simulateDrop_eq P d1).
  destruct (App.triggeredAt (App.table P) (currentPrice P - d1))
    as [| r l] eqn:E.
  - simpl. apply simulateDrop_nonpos.
  - cbn [length Nat.eqb].
    assert (Hn : App.triggeredAt (App.table P) (currentPrice P - d1) <> [])
      by (rewrite E; discriminate).
    destruct (floatingAt_mono (currentPrice P - d2) (currentPrice P - d1)
                ltac:(lra) Hn) as [Hn2 Hle].
    rewrite simulateDrop_eq.
    destruct (App.triggeredAt (App.table P) (currentPrice P - d2));
      [congruence |].
    cbn [length Nat.eqb]. apply toFixed_mono. exact Hle.
Qed.

End Exposure.

(** The rows hold the same ounces per level whenever the rounded lot size
    times the contract size is a whole number of hundredths. *)
Lemma proportional_of_decimal (P : Params) (z : Z) :
  toFixed (lotSize P) 4 * contractSize P * 100 == inject_Z z ->
  proportionalOunces P (toFixed (lotSize P) 4 * contractSize P) = true.
Proof.
  intro H. unfold proportionalOunces. apply forallb_forall. intros i _.
  apply Qeq_bool_iff. cbn [Row.totalOunces App.tableRow].
  pose proof (cumulativeLots_exact P i) as Hc.
  cbn [Row.cumulativeLots App.tableRow] in Hc.
  rewrite (toFixed_comp _ _ 2
             (Qmult_comp _ _ Hc _ _ (Qeq_refl (contractSize P)))).
  set (l := toFixed (lotSize P) 4) in *.
  assert (E : l * (inject_Z (Z.of_nat i) + 1) * contractSize P
              == l * contractSize P * (inject_Z (Z.of_nat i) + 1)) by ring.
  rewrite (toFixed_comp _ _ 2 E).
  apply toFixed_exact with (z := (z * (Z.of_nat i + 1))%Z).
  change (scale 2) with 100.
  rewrite inject_Z_mult, inject_Z_plus, <- H. change (inject_Z 1) with 1. ring.
Qed.

(** X5: on a descending ladder whose rows hold [c >= 0] ounces per level,
    an open position never shows a floating profit, so currentEquity never
    exceeds the balance rounded to cents. *)
Theorem floating_loss (P : Params) (c : Q) (s : App.Snapshot) :
  0 <= step P -> ~ toFixed (lotSize P) 4 == 0 ->
  proportionalOunces P c = true -> 0 <= c ->
  App.analysis P = Some (App.Position s) ->
  App.currentFloatingPL s <= 0 /\
  App.currentEquity s <= toFixed (balanceUSC P) 2.
Proof.
  intros Hs Hl Ho Hc Ha. pose proof (analysis_position_inv P s Ha) as Hn.
  destruct (analysis_position_fields P Hn)
    as [s' [Ha' [_ [_ [_ [_ [_ [Hpl [Heq _]]]]]]]]].
  rewrite (snapshot_unique P s s' Ha Ha'). clear Ha Ha'.
  rewrite currentFloatingPL_eq in Hpl.
  assert (Hneg : App.currentFloatingPL s' <= 0).
  { rewrite Hpl, <- (toFixed_zero 2). apply toFixed_mono.
    apply (floatingAt_nonpos P c Hs Hl Ho Hc).
    rewrite <- triggeredLevels_at. exact Hn. }
  split; [exact Hneg |].
  rewrite Heq. apply toFixed_mono. lra.
Qed.

Lemma floating_loss_witness :
  exists s, App.analysis defaults = Some (App.Position s) /\
    App.currentFloatingPL s <= 0 /\
    App.currentEquity s <= toFixed (balanceUSC defaults) 2.
Proof.
  assert (Hn : App.triggeredLevels defaults <> []) by (vm_compute; discriminate).
  destruct (analysis_position_fields defaults Hn) as [s [Ha _]].
  exists s. split; [exact Ha |].
  apply (floating_loss defaults (1 # 10) s).
  - vm_compute. discriminate.
  - vm_compute. discriminate.
  - vm_compute. reflexivity.
  - vm_compute. discriminate.
  - exact Ha.
Defined.

(** X6: under the same conditions a deeper drop never shows a smaller loss:
    simulateDrop is non-increasing in the drop amount and never positive, and
    in the snapshot drop100 <= drop50 <= drop25 <= drop10 <=
    currentFloatingPL. *)
Theorem drop_scenarios (P : Params) (c : Q) (s : App.Snapshot) :
  0 <= step P -> ~ toFixed (lotSize P) 4 == 0 ->
  proportionalOunces P c = true -> 0 <= c ->
  App.analysis P = Some (App.Position s) ->
  (forall d1 d2, d1 <= d2 ->
     App.simulateDrop P d2 <= App.simulateDrop P d1 /\
     App.simulateDrop P d1 <= 0) /\
  App.drop100 s <= App.drop50 s /\ App.drop50 s <= App.drop25 s /\
  App.drop25 s <= App.drop10 s /\ App.drop10 s <= App.currentFloatingPL s.
Proof.
  intros Hs Hl Ho Hc Ha. pose proof (analysis_position_inv P s Ha) as Hn.
  destruct (analysis_position_fields P Hn)
    as (s' & Ha' & _ & _ & _ & _ & _ & Hpl & _ & _ & _ & H10 & H25 & H50 & H100 & _).
  rewrite (snapshot_unique P s s' Ha Ha'). clear Ha Ha'.
  rewrite H10, H25, H50, H100, Hpl, currentFloatingPL_eq.
  pose proof (simulateDrop_mono P c Hs Hl Ho Hc) as Hm.
  split.
  - intros d1 d2 Hd. split; [apply Hm; exact Hd |].
    apply (simulateDrop_nonpos P c Hs Hl Ho Hc).
  - split; [apply Hm; discriminate |]. split; [apply Hm; discriminate |].
    split; [apply Hm; discriminate |].
    apply Qle_trans with (y := App.simulateDrop P 0); [apply Hm; discriminate |].
    rewrite simulateDrop_eq.
    assert (E : currentPrice P - 0 == currentPrice P) by ring.
    rewrite (triggeredAt_comp _ _ _ E), <- triggeredLevels_at.
    destruct (App.triggeredLevels P); [congruence |].
    cbn [length Nat.eqb]. apply toFixed_mono.
    rewrite (floatingAt_comp P _ _ E). lra.
Qed.

Lemma drop_scenarios_witness :
  exists s, App.analysis defaults = Some (App.Position s) /\
    App.drop100 s <= App.drop50 s /\ App.drop50 s <= App.drop25 s /\
    App.drop25 s <= App.drop10 s /\ App.drop10 s <= App.currentFloatingPL s.
Proof.
  assert (Hn : App.triggeredLevels defaults <> []) by (vm_compute; discriminate).
  destruct (analysis_position_fields defaults Hn) as [s [Ha _]].
  exists s. split; [exact Ha |].
  apply (drop_scenarios defaults (1 # 10) s).
  - vm_compute. discriminate.
  - vm_compute. discriminate.
  - vm_compute. reflexivity.
  - vm_compute. discriminate.
  - exact Ha.
Defined.

(** X7: simulateDrop returns 0 when the simulated price is above the price
    of level 0 (no level triggered), and a drop of 0 reproduces the
    snapshot's currentFloatingPL. *)
Theorem simulateDrop_edges (P : Params) (s : App.Snapshot) :
  0 <= step P -> App.analysis P = Some (App.Position s) ->
  (forall d, toFixed (gridStartPrice P) 2 < currentPrice P - d ->
             App.simulateDrop P d = 0) /\
  App.simulateDrop P 0 == App.currentFloatingPL s.
Proof.
  intros Hs Ha. pose proof (analysis_position_inv P s Ha) as Hn.
  destruct (analysis_position_fields P Hn)
    as [s' [Ha' [_ [_ [_ [_ [_ [Hpl _]]]]]]]].
  rewrite (snapshot_unique P s s' Ha Ha'). clear Ha Ha'. split.
  - intros d Hd. rewrite simulateDrop_eq.
    assert (E : App.triggeredAt (App.table P) (currentPrice P - d) = []).
    { unfold App.triggeredAt. apply filter_none. intros r Hr.
      apply In_nth_error in Hr. destruct Hr as [i Hi].
      apply table_nth in Hi. destruct Hi as [_ ->].
      apply Qle_bool_false.
      apply Qle_lt_trans with (y := toFixed (gridStartPrice P) 2); trivial.
      apply levelPrice_le_start. exact Hs. }
    rewrite E. reflexivity.
  - rewrite Hpl, currentFloatingPL_eq, simulateDrop_eq.
    assert (E : currentPrice P - 0 == currentPrice P) by ring.
    rewrite (triggeredAt_comp _ _ _ E), <- triggeredLevels_at.
    destruct (App.triggeredLevels P); [congruence |].
    cbn [length Nat.eqb]. apply toFixed_comp, floatingAt_comp. exact E.
Qed.

Lemma simulateDrop_edges_witness :
  exists s, App.analysis defaults = Some (App.Position s) /\
    App.simulateDrop defaults (- (100)) = 0 /\
    App.simulateDrop defaults 0 == App.currentFloatingPL s.
Proof.
  assert (Hn : App.triggeredLevels defaults <> []) by (vm_compute; discriminate).
  destruct (analysis_position_fields defaults Hn) as [s [Ha _]].
  assert (Hs : 0 <= step defaults) by (vm_compute; discriminate).
  destruct (simulateDrop_edges defaults s Hs Ha) as [H0 H1].
  exists s. split; [exact Ha |]. split; [| exact H1].
  apply H0. vm_compute. reflexivity.
Defined.

(** ** The equity along the curve *)





(** * Bisection in general, and [findPriceForEquity] *)

Section Bisect.

Variable test : Q -> bool.
Variable c : Q.

Lemma bisectInv_init : bisectInv test c 0 {| low := 0; high := c; hit := 0 |}.
Proof.
  unfold bisectInv. cbn [low high hit].
  split; [reflexivity |]. split; [unfold pow2; simpl; ring |].
  split; [left; reflexivity |]. split; [left; reflexivity |].
  intro H. split; lra.
Qed.

Lemma bisectInv_step (n : nat) (s : Search) :
  bisectInv test c n s -> bisectInv test c (S n) (bisectStep test s).
Proof.
  intros [H1 [H2 [H3 [H4 H5]]]]. unfold bisectStep. cbv zeta.
  pose proof (pow2_pos n) as Hp. pose proof (pow2_S n) as HS.
  set (mid := (low s + high s) / 2).
  assert (Hmid : mid == (low s + high s) * (1 # 2)) by (unfold mid; field).
  assert (Horder : 0 <= c -> low s <= high s) by (intro; nra).
  destruct (test mid) eqn:E; unfold bisectInv; cbn [low high hit].
  - split; [reflexivity |]. split; [rewrite HS, Hmid; nra |].
    split; [right; trivial |]. split; [trivial |].
    intro Hc. destruct (H5 Hc). specialize (Horder Hc). split; lra.
  - split; [trivial |]. split; [rewrite HS, Hmid; nra |].
    split; [trivial |]. split; [right; trivial |].
    intro Hc. destruct (H5 Hc). specialize (Horder Hc). split; lra.
Qed.

Lemma bisectInv_iterate (n m : nat) (s : Search) :
  bisectInv test c m s ->
  bisectInv test c (m + n) (iterate n (bisectStep test) s).
Proof.
  revert m s. induction n as [| n IH]; intros m s H.
  - rewrite Nat.add_0_r. exact H.
  - cbn [iterate]. rewrite <- Nat.add_succ_comm.
    apply IH, bisectInv_step, H.
Qed.

End Bisect.

Section BisectOrder.

Variables testA testB : Q -> bool.
Variable c : Q.
Hypothesis c_nonneg : 0 <= c.
Hypothesis weaker :
  forall x y, x == y -> testA x = true -> testB y = true.

Lemma aligned_step (n : nat) (a b : Search) :
  bisectInv testA c n a -> bisectInv testB c n b -> aligned c n a b ->
  aligned c (S n) (bisectStep testA a) (bisectStep testB b).
Proof.
  intros [_ [Ha _]] [_ [Hb _]] [j [Hj Hd]].
  pose proof (pow2_pos n) as Hp. pose proof (pow2_S n) as HS.
  unfold bisectStep. cbv zeta.
  set (ma := (low a + high a) / 2). set (mb := (low b + high b) / 2).
  assert (Hma : ma == (low a + high a) * (1 # 2)) by (unfold ma; field).
  assert (Hmb : mb == (low b + high b) * (1 # 2)) by (unfold mb; field).
  destruct (testA ma) eqn:EA; destruct (testB mb) eqn:EB;
    unfold aligned; cbn [low].
  - exists (2 * j)%Z. split; [lia |].
    rewrite HS, Hma, Hmb, inject_Z_mult. change (inject_Z 2) with 2. nra.
  - assert (Hj1 : (1 <= j)%Z).
    { destruct (Z.eq_dec j 0) as [-> | Hne]; [| lia]. exfalso.
      change (inject_Z 0) with 0 in Hd.
      assert (El : low a == low b) by nra.
      assert (Eh : high a == high b) by nra.
      assert (Em : ma == mb) by (rewrite Hma, Hmb, El, Eh; reflexivity).
      rewrite (weaker ma mb Em EA) in EB. discriminate EB. }
    exists (2 * j - 1)%Z. split; [lia |].
    unfold Z.sub. rewrite HS, Hma, inject_Z_plus, inject_Z_mult.
    change (inject_Z 2) with 2. change (inject_Z (- (1))) with (- (1)). nra.
  - exists (2 * j + 1)%Z. split; [lia |].
    rewrite HS, Hmb, inject_Z_plus, inject_Z_mult.
    change (inject_Z 2) with 2. change (inject_Z 1) with 1. nra.
  - exists (2 * j)%Z. split; [lia |].
    rewrite HS, inject_Z_mult. change (inject_Z 2) with 2. nra.
Qed.

Lemma aligned_iterate (n m : nat) (a b : Search) :
  bisectInv testA c m a -> bisectInv testB c m b -> aligned c m a b ->
  aligned c (m + n) (iterate n (bisectStep testA) a)
                  (iterate n (bisectStep testB) b).
Proof.
  revert m a b. induction n as [| n IH]; intros m a b Ha Hb Hal.
  - rewrite Nat.add_0_r. exact Hal.
  - cbn [iterate]. rewrite <- Nat.add_succ_comm.
    apply IH; [apply bisectInv_step | apply bisectInv_step |
               apply aligned_step]; assumption.
Qed.

(** The weaker test never ends at a lower price. *)
Lemma bisect_order (n : nat) :
  hit (iterate n (bisectStep testA) {| low := 0; high := c; hit := 0 |})
  <= hit (iterate n (bisectStep testB) {| low := 0; high := c; hit := 0 |}).
Proof.
  pose proof (bisectInv_iterate testA c n 0 _ (bisectInv_init testA c)) as Ha.
  pose proof (bisectInv_iterate testB c n 0 _ (bisectInv_init testB c)) as Hb.
  assert (H0 : aligned c 0 {| low := 0; high := c; hit := 0 |}
                         {| low := 0; high := c; hit := 0 |}).
  { exists 0%Z. split; [lia |]. cbn [low]. ring. }
  pose proof (aligned_iterate n 0 _ _ (bisectInv_init testA c)
                (bisectInv_init testB c) H0) as [j [Hj Hd]].
  cbn [Nat.add] in *.
  destruct Ha as [Ea _]. destruct Hb as [Eb _]. rewrite Ea, Eb.
  pose proof (pow2_pos n) as Hp.
  assert (Hjq : 0 <= inject_Z j)
    by (change 0 with (inject_Z 0); rewrite <- Zle_Qle; exact Hj).
  nra.
Qed.

End BisectOrder.

Section EquityTarget.

Variable P : Params.

Lemma equityTargetStep_eq (t : Q) (s : Search) :
  Part000.equityTargetStep P t s = bisectStep (reachesTarget P t) s.
Proof.
  unfold Part000.equityTargetStep, bisectStep, reachesTarget. cbv zeta.
  destruct (length (Part000.triggeredAt (Part000.table P)
                      ((low s + high s) / 2)) =? 0)%nat; simpl; trivial.
Qed.

Lemma equityTargetSearch_eq (t : Q) :
  equityTargetSearch P t =
  iterate 20 (bisectStep (reachesTarget P t))
          {| low := 0; high := currentPrice P; hit := 0 |}.
Proof.
  unfold equityTargetSearch. apply iterate_ext. intro s.
  apply equityTargetStep_eq.
Qed.

Lemma equityTargetSearch_inv (t : Q) :
  bisectInv (reachesTarget P t) (currentPrice P) 20 (equityTargetSearch P t).
Proof.
  rewrite equityTargetSearch_eq.
  apply (bisectInv_iterate _ _ 20 0), bisectInv_init.
Qed.

Lemma reachesTarget_true (t p : Q) :
  reachesTarget P t p = true <->
  Part000.triggeredAt (Part000.table P) p <> [] /\
  Part000.equityAt P p <= t.
Proof.
  unfold reachesTarget. rewrite andb_true_iff, negb_true_iff, Qle_bool_iff.
  destruct (Part000.triggeredAt (Part000.table P) p); simpl;
    intuition congruence.
Qed.

Lemma reachesTarget_weaker (t1 t2 : Q) :
  t1 <= t2 ->
  forall x y, x == y ->
    reachesTarget P t1 x = true -> reachesTarget P t2 y = true.
Proof.
  intros Ht x y Hxy H. apply reachesTarget_true in H. destruct H as [Hn He].
  apply reachesTarget_true.
  change (Part000.triggeredAt (Part000.table P))
    with (App.triggeredAt (App.table P)) in *.
  change (Part000.equityAt P) with (App.equityAt P) in *.
  rewrite <- (triggeredAt_comp _ x y Hxy). split; [exact Hn |].
  rewrite equityAt_floating in *.
  rewrite <- (floatingAt_comp P x y Hxy). lra.
Qed.

Lemma equityTarget_range (t : Q) (st : Search) :
  bisectInv (reachesTarget P t) (currentPrice P) 20 st ->
  0 <= currentPrice P ->
  0 <= toFixed (hit st) 2 <= toFixed (currentPrice P) 2.
Proof.
  intros [H1 [H2 [_ [_ H5]]]] Hc. destruct (H5 Hc) as [Hlo Hhi].
  pose proof (pow2_pos 20) as Hp.
  destruct st as [lo hi r]. cbn [low high hit] in *. subst r. split.
  - rewrite <- (toFixed_zero 2). apply toFixed_mono. exact Hlo.
  - apply toFixed_mono. nra.
Qed.

End EquityTarget.

Lemma findPriceForEquity_eq (P : Params) (t : Q) :
  Part000.findPriceForEquity P t = toFixed (hit (equityTargetSearch P t)) 2.
Proof. unfold Part000.findPriceForEquity, equityTargetSearch. reflexivity. Qed.




(** The fields of the second file's snapshot that the first does not have. *)
Lemma part000_position_fields (P : Params) (s : Part000.Snapshot) :
  Part000.analysis P = Some (Part000.Position s) ->
  Part000.dd25Price s
    = Part000.findPriceForEquity P (balanceUSC P * (75 # 100)) /\
  Part000.dd50Price s
    = Part000.findPriceForEquity P (balanceUSC P * (50 # 100)) /\
  Part000.dd75Price s
    = Part000.findPriceForEquity P (balanceUSC P * (25 # 100)) /\
  Part000.dd25Amount s = toFixed (balanceUSC P * (25 # 100)) 2 /\
  Part000.dd50Amount s = toFixed (balanceUSC P * (50 # 100)) 2 /\
  Part000.dd75Amount s = toFixed (balanceUSC P * (75 # 100)) 2.
Proof.
  unfold Part000.analysis.
  destruct (length (Part000.table P) =? 0)%nat; [discriminate |].
  destruct (length (Part000.triggeredLevels P) =? 0)%nat; [discriminate |].
  cbv zeta. intro H. injection H as <-.
  cbn [Part000.dd25Price Part000.dd50Price Part000.dd75Price
       Part000.dd25Amount Part000.dd50Amount Part000.dd75Amount].
  repeat split.
Qed.

(** X10: with a non-negative current price, [findPriceForEquity] returns a
    price between 0 and the current price rounded to cents, and a higher
    equity target never gives a lower price; so for a non-negative balance
    the thresholds of the snapshot are ordered,
    dd75Price <= dd50Price <= dd25Price. *)
Theorem equity_target_order (P : Params) :
  0 <= currentPrice P ->
  (forall t, 0 <= Part000.findPriceForEquity P t
             <= toFixed (currentPrice P) 2) /\
  (forall t1 t2, t1 <= t2 ->
     Part000.findPriceForEquity P t1 <= Part000.findPriceForEquity P t2) /\
  (forall s, 0 <= balanceUSC P ->
     Part000.analysis P = Some (Part000.Position s) ->
     Part000.dd75Price s <= Part000.dd50Price s /\
     Part000.dd50Price s <= Part000.dd25Price s).
Proof.
  intro Hc.
  pose proof (findPriceForEquity_eq P) as Hfind.
  assert (Hord : forall t1 t2, t1 <= t2 ->
     Part000.findPriceForEquity P t1 <= Part000.findPriceForEquity P t2).
  { intros t1 t2 Ht. rewrite !Hfind, !equityTargetSearch_eq.
    apply toFixed_mono.
    apply (bisect_order _ _ (currentPrice P) Hc
             (reachesTarget_weaker P t1 t2 Ht)). }
  split; [| split; [exact Hord |]].
  - intro t. rewrite Hfind.
    exact (equityTarget_range P t _ (equityTargetSearch_inv P t) Hc).
  - intros s Hb Ha.
    destruct (part000_position_fields P s Ha) as [H25 [H50 [H75 _]]].
    rewrite H25, H50, H75. split; apply Hord; lra.
Qed.

Lemma equity_target_order_witness :
  Part000.findPriceForEquity defaults 2500
  <= Part000.findPriceForEquity defaults 5000.
Proof.
  assert (Hc : 0 <= currentPrice defaults) by (vm_compute; discriminate).
  destruct (equity_target_order defaults Hc) as [_ [Hord _]].
  apply Hord. vm_compute. discriminate.
Defined.

(** * The chart geometry *)

Section ChartFrame.






End ChartFrame.




Lemma map_seq_hd {A : Type} (f : nat -> A) (n : nat) (d : A) :
  hd d (map f (seq 0 (S n))) = f 0%nat.
Proof. reflexivity. Qed.







(** * The ladder bars *)

Lemma fold_max_const (l : Q) (xs : list Q) :
  (forall x, In x xs -> x = l) -> fold_right Qmax l xs == l.
Proof.
  induction xs as [| a xs IH]; intro H; cbn [fold_right]; [reflexivity |].
  rewrite (H a (or_introl eq_refl)).
  rewrite IH by (intros x Hx; apply H; right; exact Hx).
  apply Q.max_id.
Qed.

(** X13: every level carries the same rounded lot size, so whenever that
    size is not zero every bar of the ladder is drawn at full width, 100
    percent, triggered or not. *)
Theorem ladder_bars_full (P : Params) (r : Row.t) :
  ~ toFixed (lotSize P) 4 == 0 -> In r (App.table P) ->
  Chart.barWidth (App.table P) r == 100.
Proof.
  intros Hl Hr. unfold Chart.barWidth.
  assert (Hall : forall x, In x (map Row.lotsAtThisLevel (App.table P)) ->
                           x = toFixed (lotSize P) 4).
  { intros x Hx. apply in_map_iff in Hx. destruct Hx as [r' [<- Hr']].
    apply In_nth_error in Hr'. destruct Hr' as [i Hi].
    apply table_nth in Hi. destruct Hi as [_ ->]. reflexivity. }
  assert (Hrow : Row.lotsAtThisLevel r = toFixed (lotSize P) 4)
    by (apply Hall, in_map, Hr).
  assert (Hmax : Chart.maxLots (App.table P) == toFixed (lotSize P) 4).
  { unfold Chart.maxLots.
    destruct (map Row.lotsAtThisLevel (App.table P)) as [| x xs] eqn:E.
    - apply (in_map Row.lotsAtThisLevel) in Hr. rewrite E in Hr. destruct Hr.
    - rewrite (Hall x (or_introl eq_refl)).
      apply fold_max_const. intros y Hy. apply Hall. right. exact Hy. }
  rewrite Hrow, Hmax. field. exact Hl.
Qed.

Lemma ladder_bars_full_witness :
  Chart.barWidth (App.table defaults) (App.tableRow defaults 3) == 100.
Proof.
  apply (ladder_bars_full defaults).
  - vm_compute. discriminate.
  - unfold App.table. apply in_map, in_seq. cbn. lia.
Defined.

(** * Risk colour *)

(** X14: the colour of a snapshot goes with its tier (EXTREME red, HIGH
    orange, MODERATE yellow, LOW green), and [getRiskColorClass] always finds
    that colour's own entry: the green fallback is never needed. *)
Theorem risk_colour (P : Params) (s : App.Snapshot) :
  App.analysis P = Some (App.Position s) ->
  In (App.riskLevel s, App.riskColor s)
     [ ("EXTREME", "red"); ("HIGH", "orange");
       ("MODERATE", "yellow"); ("LOW", "green") ]%string /\
  Chart.getRiskColorClass (App.riskColor s)
  = Chart.property (App.riskColor s) Chart.colors /\
  Chart.getRiskColorClass (App.riskColor s) <> None.
Proof.
  intro Ha. pose proof (analysis_position_inv P s Ha) as Hn.
  destruct (analysis_position_fields P Hn)
    as (s' & Ha' & _ & _ & _ & _ & _ & _ & _ & _ & _ & _ & _ & _ & _ & Hr & Hcol & _).
  rewrite (snapshot_unique P s s' Ha Ha'). clear Ha Ha'.
  rewrite Hr, Hcol. unfold App.riskOf.
  destruct (Qgt_bool (App.marginPercent s') 70);
    [cbn; intuition discriminate |].
  destruct (Qgt_bool (App.marginPercent s') 50);
    [cbn; intuition discriminate |].
  destruct (Qgt_bool (App.marginPercent s') 30);
    cbn; intuition discriminate.
Qed.

Lemma risk_colour_witness :
  exists s, App.analysis seventy = Some (App.Position s) /\
    (App.riskLevel s, App.riskColor s) = ("HIGH", "orange")%string /\
    Chart.getRiskColorClass (App.riskColor s)
    = Some "bg-orange-100 border-orange-300 text-orange-900"%string.
Proof.
  assert (H : exists s, App.analysis seventy = Some (App.Position s) /\
    (App.riskLevel s, App.riskColor s) = ("HIGH", "orange")%string)
    by (eexists; split; [vm_compute; reflexivity | reflexivity]).
  destruct H as [s [Ha Hp]]. exists s. split; [exact Ha |]. split; [exact Hp |].
  destruct (risk_colour seventy s Ha) as [_ [Hc _]].
  rewrite Hc. injection Hp as _ ->. reflexivity.
Defined.

(** * Margin at the current price *)

(** X15: with positive leverage and non-negative lot and contract sizes,
    the margin used at the current price never exceeds the margin column of
    the last triggered ladder row, which is computed at that level's own,
    higher price. *)
Theorem used_margin_bound (P : Params) (s : App.Snapshot) :
  0 < leverage P -> 0 <= lotSize P -> 0 <= contractSize P ->
  App.analysis P = Some (App.Position s) ->
  exists r, In r (App.triggeredLevels P) /\
    Row.levelPrice r = App.lowestTriggered s /\
    App.usedMargin s <= Row.margin r.
Proof.
  intros Hlev Hlot Hcs Ha. pose proof (analysis_position_inv P s Ha) as Hn.
  destruct (analysis_position P Hn) as [s1 [Ha1 [_ [Hum _]]]].
  destruct (analysis_position_fields P Hn) as (s2 & Ha2 & _ & _ & _ & Hlow & _).
  rewrite (snapshot_unique P s s1 Ha Ha1).
  rewrite (snapshot_unique P s1 s2 Ha1 Ha2) in *. clear Ha Ha1 Ha2 s1.
  assert (Hin : In (App.lastTriggered P) (App.triggeredLevels P))
    by (apply lastRow_in; exact Hn).
  exists (App.lastTriggered P). split; [exact Hin |].
  split; [symmetry; exact Hlow |]. rewrite Hum.
  destruct (triggered_row P _ Hin) as [i [_ [Er Hle]]].
  rewrite Er in *. cbn [Row.margin Row.totalOunces Row.levelPrice App.tableRow] in *.
  set (oz := toFixed (toFixed (toFixed (lotSize P) 4
                               * (inject_Z (Z.of_nat i) + 1)) 4
                      * contractSize P) 2) in *.
  assert (Hoz : 0 <= oz).
  { unfold oz. rewrite <- (toFixed_zero 2). apply toFixed_mono.
    assert (0 <= toFixed (toFixed (lotSize P) 4
                          * (inject_Z (Z.of_nat i) + 1)) 4).
    { rewrite <- (toFixed_zero 4). apply toFixed_mono.
      pose proof (lots_nonneg P Hlot). pose proof (index_pos i). nra. }
    nra. }
  set (lp := toFixed (gridStartPrice P - inject_Z (Z.of_nat i) * step P)
                     precision) in *.
  assert (Hnot : toFixed (currentPrice P * oz) 2 <= toFixed (lp * oz) 2)
    by (apply toFixed_mono; nra).
  apply toFixed_mono.
  pose proof (Qinv_lt_0_compat _ Hlev) as Hinv.
  unfold Qdiv. nra.
Qed.

Lemma used_margin_bound_witness :
  exists s r, App.analysis defaults = Some (App.Position s) /\
    In r (App.triggeredLevels defaults) /\ App.usedMargin s <= Row.margin r.
Proof.
  assert (Hn : App.triggeredLevels defaults <> []) by (vm_compute; discriminate).
  destruct (analysis_position defaults Hn) as [s [Ha _]].
  destruct (used_margin_bound defaults s) as [r [Hr [_ Hm]]].
  - vm_compute. reflexivity.
  - vm_compute. discriminate.
  - vm_compute. discriminate.
  - exact Ha.
  - exists s, r. split; [exact Ha |]. split; [exact Hr | exact Hm].
Defined.

(** * Reading a cookie *)

Section CookieJar.

Local Open Scope string_scope.

Lemma hasChar_app (ch : ascii) (s t : string) :
  hasChar ch (s ++ t) = hasChar ch s || hasChar ch t.
Proof.
  induction s as [| x s IH]; simpl; [reflexivity |].
  rewrite IH, orb_assoc. reflexivity.
Qed.

Lemma prefix_nil (s : string) : String.prefix EmptyString s = true.
Proof. destruct s; reflexivity. Qed.

Lemma prefix_cons (a b : ascii) (s1 s2 : string) :
  String.prefix (String a s1) (String b s2)
  = if Ascii.eqb a b then String.prefix s1 s2 else false.
Proof.
  cbn [String.prefix]. destruct (Ascii.ascii_dec a b) as [-> | Hne].
  - rewrite Ascii.eqb_refl. reflexivity.
  - destruct (Ascii.eqb_spec a b) as [E | _]; [congruence | reflexivity].
Qed.

Lemma split_cons (sep ch : ascii) (s : string) :
  Ascii.eqb ch sep = false ->
  exists seg segs, Cookie.split sep s = seg :: segs /\
    Cookie.split sep (String ch s) = String ch seg :: segs.
Proof.
  intro H. simpl. rewrite H.
  destruct (Cookie.split sep s) as [| seg segs] eqn:E.
  - exfalso. destruct s; simpl in E; [discriminate |].
    destruct (Ascii.eqb a sep); [discriminate |].
    destruct (Cookie.split sep s); discriminate.
  - exists seg, segs. split; reflexivity.
Qed.

(** Splitting text without the separator, followed by the separator. *)
Lemma split_app (sep : ascii) (s t : string) :
  hasChar sep s = false ->
  Cookie.split sep (s ++ String sep t) = s :: Cookie.split sep t.
Proof.
  induction s as [| x s IH]; intro H.
  - simpl. rewrite Ascii.eqb_refl. reflexivity.
  - simpl in H. apply orb_false_iff in H. destruct H as [Hx Hs].
    cbn [append Cookie.split]. rewrite Hx, (IH Hs). reflexivity.
Qed.

Lemma split_none (sep : ascii) (s : string) :
  hasChar sep s = false -> Cookie.split sep s = [s].
Proof.
  induction s as [| x s IH]; intro H; [reflexivity |].
  simpl in H. apply orb_false_iff in H. destruct H as [Hx Hs].
  cbn [Cookie.split]. rewrite Hx, (IH Hs). reflexivity.
Qed.

Lemma pairText_clean (kv : string * string) :
  cleanPair kv = true -> hasChar ";"%char (pairText kv) = false.
Proof.
  unfold cleanPair, cleanName, cleanValue, pairText.
  rewrite !andb_true_iff, !negb_true_iff. intros [[[Hk _] _] Hv].
  rewrite !hasChar_app, Hk, Hv. reflexivity.
Qed.

(** The segments of a printed jar: the first pair, then every other pair
    behind one space. *)
Lemma split_jar (kv : string * string) (rest : list (string * string)) :
  forallb cleanPair (kv :: rest) = true ->
  Cookie.split ";"%char (jarText (kv :: rest))
  = pairText kv :: map (fun p => " " ++ pairText p) rest.
Proof.
  revert kv. induction rest as [| kv' rest IH]; intros kv H.
  - cbn [jarText map]. apply split_none, pairText_clean.
    simpl in H. rewrite andb_true_r in H. exact H.
  - cbn [forallb] in H. apply andb_true_iff in H. destruct H as [Hkv Hrest].
    change (jarText (kv :: kv' :: rest))
      with (pairText kv ++ String ";"%char (String " "%char (jarText (kv' :: rest)))).
    rewrite split_app by (apply pairText_clean; exact Hkv).
    f_equal.
    destruct (split_cons ";"%char " "%char (jarText (kv' :: rest)) eq_refl)
      as [seg [segs [E1 E2]]].
    rewrite E2. rewrite (IH kv' Hrest) in E1. injection E1 as <- <-.
    reflexivity.
Qed.

Lemma dropSpaces_pair (kv : string * string) :
  cleanPair kv = true -> Cookie.dropSpaces (pairText kv) = pairText kv.
Proof.
  unfold cleanPair, cleanName, pairText.
  rewrite !andb_true_iff, !negb_true_iff. intros [[_ Hsp] _].
  destruct kv as [k v]. cbn [fst snd] in *.
  destruct k as [| x k]; [reflexivity |].
  cbn [append Cookie.dropSpaces].
  rewrite prefix_cons, prefix_nil, Ascii.eqb_sym in Hsp.
  destruct (Ascii.eqb x " "%char); [discriminate Hsp | reflexivity].
Qed.

(** Between names without [=], [name=] starts [k=v] exactly when the names
    are equal. *)
Lemma prefix_pair (name k v : string) :
  hasChar "="%char name = false -> hasChar "="%char k = false ->
  String.prefix (name ++ "=") (k ++ "=" ++ v) = String.eqb k name.
Proof.
  revert k. induction name as [| x name IH]; intros k Hn Hk.
  - destruct k as [| y k].
    + cbn [append]. rewrite prefix_cons, Ascii.eqb_refl. apply prefix_nil.
    + simpl in Hk. apply orb_false_iff in Hk. destruct Hk as [Hy _].
      cbn [append String.eqb]. rewrite prefix_cons.
      rewrite Ascii.eqb_sym, Hy. reflexivity.
  - simpl in Hn. apply orb_false_iff in Hn. destruct Hn as [Hx Hn].
    destruct k as [| y k].
    + cbn [append String.eqb]. rewrite prefix_cons, Hx. reflexivity.
    + simpl in Hk. apply orb_false_iff in Hk. destruct Hk as [_ Hk].
      cbn [append String.eqb]. rewrite prefix_cons, (Ascii.eqb_sym x y).
      destruct (Ascii.eqb y x); [apply IH; assumption | reflexivity].
Qed.

Lemma dropChars_name (s t : string) :
  Cookie.dropChars (String.length (s ++ "=")) (s ++ "=" ++ t) = t.
Proof. induction s as [| x s IH]; [destruct t; reflexivity | exact IH]. Qed.

Lemma loop_pair (name : string) (kv : string * string)
      (rest : list string) :
  hasChar "="%char name = false -> cleanPair kv = true ->
  Cookie.getCookieLoop (name ++ "=") (pairText kv :: rest) =
  if String.eqb (fst kv) name then Some (snd kv)
  else Cookie.getCookieLoop (name ++ "=") rest.
Proof.
  intros Hn Hkv. cbn [Cookie.getCookieLoop]. cbv zeta.
  rewrite (dropSpaces_pair kv Hkv).
  assert (Hk : hasChar "="%char (fst kv) = false).
  { unfold cleanPair, cleanName in Hkv.
    rewrite !andb_true_iff, !negb_true_iff in Hkv. tauto. }
  unfold pairText. rewrite (prefix_pair name (fst kv) (snd kv) Hn Hk).
  destruct (String.eqb_spec (fst kv) name) as [-> | _]; [| reflexivity].
  rewrite dropChars_name. reflexivity.
Qed.

Lemma loop_rest (name : string) (rest : list (string * string)) :
  hasChar "="%char name = false -> forallb cleanPair rest = true ->
  Cookie.getCookieLoop (name ++ "=") (map (fun p => " " ++ pairText p) rest)
  = firstValue name rest.
Proof.
  intros Hn. induction rest as [| kv rest IH]; intro H; [reflexivity |].
  cbn [forallb] in H. apply andb_true_iff in H. destruct H as [Hkv Hrest].
  cbn [map].
  assert (E : Cookie.getCookieLoop (name ++ "=")
                ((" " ++ pairText kv) :: map (fun p => " " ++ pairText p) rest)
              = Cookie.getCookieLoop (name ++ "=")
                (pairText kv :: map (fun p => " " ++ pairText p) rest))
    by reflexivity.
  rewrite E, (loop_pair name kv _ Hn Hkv), (IH Hrest).
  destruct kv as [k v]. reflexivity.
Qed.

End CookieJar.

(** X16: on a cookie string as the browser prints it (clean [name=value]
    pairs joined by semicolon and space) [getCookie] returns the value of
    the first pair with that name, and [null] when no pair has it, the empty
    jar included. *)
Theorem getCookie_lookup (kvs : list (string * string)) (name : string) :
  forallb cleanPair kvs = true -> hasChar "="%char name = false ->
  Cookie.getCookie (jarText kvs) name = firstValue name kvs.
Proof.
  intros H Hn. unfold Cookie.getCookie.
  destruct kvs as [| kv rest].
  - cbn [jarText Cookie.split firstValue Cookie.getCookieLoop Cookie.dropSpaces].
    cbv zeta. destruct name; reflexivity.
  - rewrite (split_jar kv rest H).
    cbn [forallb] in H. apply andb_true_iff in H. destruct H as [Hkv Hrest].
    rewrite (loop_pair name kv _ Hn Hkv), (loop_rest name rest Hn Hrest).
    destruct kv as [k v]. reflexivity.
Qed.

Lemma getCookie_lookup_witness :
  Cookie.getCookie "gridStartPrice=2650; step=5; darkMode=true"%string
                   "step"%string = Some "5"%string /\
  Cookie.getCookie "gridStartPrice=2650; step=5; darkMode=true"%string
                   "levels"%string = None.
Proof.
  split.
  - apply (getCookie_lookup
             [("gridStartPrice", "2650"); ("step", "5"); ("darkMode", "true")]%string
             "step"%string); reflexivity.
  - apply (getCookie_lookup
             [("gridStartPrice", "2650"); ("step", "5"); ("darkMode", "true")]%string
             "levels"%string); reflexivity.
Defined.

(** * Rounding that changes nothing *)

Lemma toFixed_times (x : Q) (d : nat) (m : Z) :
  (1 <= m)%Z ->
  toFixed (toFixed x d * inject_Z m) d == toFixed x d * inject_Z m.
Proof.
  intro Hm.
  assert (Hq : 1 <= inject_Z m)
    by (change 1 with (inject_Z 1); rewrite <- Zle_Qle; exact Hm).
  destruct (toFixed_decimal x d) as [z [[B E] | E]].
  - rewrite E.
    destruct (toFixed_cases (x * inject_Z m) d) as [[_ E'] | [S' _]].
    + rewrite E'. reflexivity.
    + exfalso. rewrite Qabs_Qmult in S'.
      assert (H1 : 1 <= Qabs (inject_Z m))
        by (apply Qle_trans with (y := inject_Z m); [exact Hq | apply Qle_Qabs]).
      assert (Hb : 0 < big) by reflexivity. nra.
  - apply toFixed_exact with (z := (z * m)%Z).
    rewrite inject_Z_mult, <- E. ring.
Qed.

(** X17: in every ladder row the second rounding is exact: cumulativeLots
    is the rounded lot size times the row number, and notionalUSC is
    notionalUSD times 100; the rows are numbered from 1 and there are
    levelCount of them (none for levelCount <= 0). *)
Theorem ladder_rows (P : Params) (i : nat) (r : Row.t) :
  nth_error (App.table P) i = Some r ->
  (i < length (App.table P))%nat /\
  length (App.table P) = Z.to_nat (levels P) /\
  Row.idx r = (Z.of_nat i + 1)%Z /\
  Row.cumulativeLots r == toFixed (lotSize P) 4 * inject_Z (Row.idx r) /\
  Row.notionalUSC r == Row.notionalUSD r * 100.
Proof.
  intro H. pose proof (table_length P) as Hlen.
  apply table_nth in H. destruct H as [Hi ->].
  split; [lia |]. split; [exact Hlen |]. split; [reflexivity |]. split.
  - cbn [Row.idx App.tableRow]. rewrite cumulativeLots_exact, inject_Z_plus.
    reflexivity.
  - cbn [Row.notionalUSC Row.notionalUSD App.tableRow].
    apply (toFixed_times _ 2 100). lia.
Qed.

Lemma ladder_rows_witness :
  exists r, nth_error (App.table defaults) 10 = Some r /\
    Row.idx r = 11%Z /\
    Row.notionalUSC r == Row.notionalUSD r * 100.
Proof.
  eexists. split; [reflexivity |].
  destruct (ladder_rows defaults 10 _ eq_refl) as [_ [_ [Hidx [_ Hn]]]].
  split; [exact Hidx | exact Hn].
Defined.

(** * The margin-call price on a regular ladder *)




(** * The drawdown prices on a regular ladder *)

Lemma reachesTarget_downward (P : Params) (c t : Q) :
  0 <= step P -> ~ toFixed (lotSize P) 4 == 0 ->
  proportionalOunces P c = true -> 0 <= c ->
  forall p q, p <= q ->
    reachesTarget P t q = true -> reachesTarget P t p = true.
Proof.
  intros Hs Hl Ho Hc p q Hpq H.
  apply reachesTarget_true in H. apply reachesTarget_true.
  change (Part000.triggeredAt (Part000.table P))
    with (App.triggeredAt (App.table P)) in *.
  change (Part000.equityAt P) with (App.equityAt P) in *.
  destruct H as [Hn He].
  destruct (floatingAt_mono P c Hs Hl Ho Hc p q Hpq Hn) as [Hnp Hle].
  split; [exact Hnp |]. rewrite equityAt_floating in *. lra.
Qed.

Lemma target_bracket (P : Params) (c t : Q) (st : Search) :
  0 <= step P -> ~ toFixed (lotSize P) 4 == 0 ->
  proportionalOunces P c = true -> 0 <= c ->
  reachesTarget P t (currentPrice P) = false ->
  bisectInv (reachesTarget P t) (currentPrice P) 20 st -> ~ hit st == 0 ->
  (forall p, p <= hit st -> reachesTarget P t p = true) /\
  (forall q, high st <= q -> reachesTarget P t q = false).
Proof.
  intros Hs Hl Ho Hc Hno Hinv Hr.
  pose proof (reachesTarget_downward P c t Hs Hl Ho Hc) as Hdown.
  destruct Hinv as [H1 [_ [H3 [H4 _]]]].
  destruct st as [lo hi r]. cbn [low high hit] in *. subst lo.
  assert (Hpass : reachesTarget P t r = true).
  { destruct H3 as [H3 | H3]; trivial. exfalso. apply Hr.
    rewrite H3. reflexivity. }
  split.
  - intros p Hp. exact (Hdown p r Hp Hpass).
  - intros q Hq. destruct (reachesTarget P t q) eqn:E; trivial.
    pose proof (Hdown hi q Hq E) as Hhi.
    destruct H4 as [-> | H4]; congruence.
Qed.

(** X19: on a descending ladder whose rows hold [c >= 0] ounces per level
    (lot size not rounded to zero), equity falls with the price, so when the
    equity at the current price is still above the target and
    [findPriceForEquity] finds a price, its unrounded result [r] and final
    upper bound [h = r + currentPrice / 2^20] bracket the price at which
    equity reaches the target: it is at or below the target at every price
    up to [r] and above it, or no level is triggered, from [h] upwards. *)
Theorem equity_target_bracket (P : Params) (c t : Q) :
  0 <= step P -> ~ toFixed (lotSize P) 4 == 0 ->
  proportionalOunces P c = true -> 0 <= c ->
  reachesTarget P t (currentPrice P) = false ->
  ~ hit (equityTargetSearch P t) == 0 ->
  (forall p, p <= hit (equityTargetSearch P t) ->
     Part000.triggeredAt (Part000.table P) p <> [] /\
     Part000.equityAt P p <= t) /\
  (forall q, high (equityTargetSearch P t) <= q ->
     reachesTarget P t q = false).
Proof.
  intros Hs Hl Ho Hc Hno Hr.
  destruct (target_bracket P c t _ Hs Hl Ho Hc Hno
              (equityTargetSearch_inv P t) Hr) as [Hp Hq].
  split; [| exact Hq].
  intros p Hle. apply reachesTarget_true, Hp, Hle.
Qed.

Lemma equity_target_bracket_witness :
  let t := balanceUSC defaults * (50 # 100) in
  (forall p, p <= hit (equityTargetSearch defaults t) ->
     Part000.triggeredAt (Part000.table defaults) p <> [] /\
     Part000.equityAt defaults p <= t) /\
  (forall q, high (equityTargetSearch defaults t) <= q ->
     reachesTarget defaults t q = false).
Proof.
  assert (H : 0 <= step defaults /\ ~ toFixed (lotSize defaults) 4 == 0 /\
              proportionalOunces defaults (1 # 10) = true /\
              0 <= (1 # 10) /\
              reachesTarget defaults (balanceUSC defaults * (50 # 100))
                            (currentPrice defaults) = false /\
              ~ hit (equityTargetSearch defaults
                       (balanceUSC defaults * (50 # 100))) == 0).
  { repeat split; try (vm_compute; discriminate); vm_compute; reflexivity. }
  destruct H as (H1 & H2 & H3 & H4 & H5 & H6).
  exact (equity_target_bracket defaults (1 # 10) _ H1 H2 H3 H4 H5 H6).
Defined.
